(** * votopreferencial/zk: the vote-counting code, embedded and checked

    The repository holds three independent pieces of counting code:

    - the Hyperledger Fabric chaincode (Go): [InitElection], [CastVote],
      [CountVotes] over one [Election] record stored under the key
      "election" (module [Chaincode]);
    - two Solidity contracts, [STVVote] (stvVote.sol) and [STVContract]
      (STVContract.sol), with [vote] and [countVotes];
    - the flat rank-weighted tally [calcularTotais] of tallying.go
      (module [Tallying]).

    The chaincode and stvVote.sol are stored without some of their
    punctuation ([:=], [/], [<], [>], [>=] and the quotes are missing).  They
    are read with the operators that the corrected listing of the chaincode
    in audits/chaincode.go.MD restores: [quota := TotalVotes / (Seats + 1)],
    [seatsRemaining > 0], [VoteCount >= quota], and likewise
    [totalVotes / (seats + 1) + 1], [seats > 0], [voteCount >= quota] in the
    contract.

    Each is translated function by function.  Go's [int] is the 64-bit
    two's-complement integer (module [GoInt]); Solidity's [uint] is the
    256-bit unsigned integer of a 0.8 compiler, whose arithmetic reverts on
    overflow (module [Uint]).  Loops that the source does not bound take a
    fuel argument and report [OutOfFuel] when it runs out. *)

From Stdlib Require Import ZArith List Lia Permutation Sorted Ascii.
From stdpp Require Import gmap strings list fin_maps sorting.

Open Scope Z_scope.

(** ** Go's [int] *)

Module GoInt.

Definition int_min : Z := - 2 ^ 63.
Definition int_max : Z := 2 ^ 63 - 1.

Definition in_range (z : Z) : Prop := int_min <= z <= int_max.

(** Reduction of an exact integer to the 64-bit signed value Go keeps. *)
Definition wrap (z : Z) : Z := (z - int_min) mod 2 ^ 64 + int_min.

Definition add (a b : Z) : Z := wrap (a + b).
Definition sub (a b : Z) : Z := wrap (a - b).

(** [a / b] for [b <> 0]: the quotient truncated toward zero. *)
Definition quo (a b : Z) : Z := wrap (Z.quot a b).

End GoInt.

(** ** Strings through Go's [encoding/json] *)

Module GoJSON.

(** A Go string is a sequence of bytes.  [json.Marshal] writes a string as
    JSON text, and [json.Unmarshal] reads it back; Go's library documents
    that invalid UTF-8 is replaced by the Unicode replacement character
    U+FFFD on the way.  The encoder walks the string with
    [utf8.DecodeRuneInString]: a byte sequence that decodes is kept, and a
    byte at which decoding fails (rune error of width 1) is written as
    U+FFFD.  The definitions follow the decoding table of [unicode/utf8]. *)

Definition byte_in (lo hi : N) (c : ascii) : bool :=
  (lo <=? N_of_ascii c)%N && (N_of_ascii c <=? hi)%N.

(** A continuation byte, [0x80..0xBF]. *)
Definition continuation (c : ascii) : bool := byte_in 128 191 c.

(** The second byte that a three-byte sequence starting with [b0] accepts. *)
Definition second_of_three (b0 : N) (c : ascii) : bool :=
  if (b0 =? 224)%N then byte_in 160 191 c
  else if (b0 =? 237)%N then byte_in 128 159 c
  else continuation c.

(** The second byte that a four-byte sequence starting with [b0] accepts. *)
Definition second_of_four (b0 : N) (c : ascii) : bool :=
  if (b0 =? 240)%N then byte_in 144 191 c
  else if (b0 =? 244)%N then byte_in 128 143 c
  else continuation c.

(** The number of bytes of the UTF-8 sequence that [s] starts with, 0 when
    [s] is empty or starts with no well-formed sequence. *)
Definition rune_width (s : string) : nat :=
  match s with
  | EmptyString => 0
  | String c0 r0 =>
      let b0 := N_of_ascii c0 in
      if (b0 <? 128)%N then 1
      else if (b0 <? 194)%N then 0
      else if (b0 <? 224)%N then
        match r0 with
        | String c1 _ => if continuation c1 then 2 else 0
        | _ => 0
        end
      else if (b0 <? 240)%N then
        match r0 with
        | String c1 (String c2 _) =>
            if second_of_three b0 c1 && continuation c2 then 3 else 0
        | _ => 0
        end
      else if (b0 <? 245)%N then
        match r0 with
        | String c1 (String c2 (String c3 _)) =>
            if second_of_four b0 c1 && continuation c2 && continuation c3
            then 4 else 0
        | _ => 0
        end
      else 0
  end.

(** U+FFFD in UTF-8: the bytes [0xEF 0xBF 0xBD]. *)
Definition replacement : string :=
  String (ascii_of_N 239) (String (ascii_of_N 191) (String (ascii_of_N 189) EmptyString)).

(** The string read back after [json.Marshal]; [inside] counts the bytes
    still to copy of a sequence already found well-formed. *)
Fixpoint coerce (inside : nat) (s : string) : string :=
  match s with
  | EmptyString => EmptyString
  | String c rest =>
      match inside with
      | S k => String c (coerce k rest)
      | O =>
          match rune_width s with
          | O => (replacement ++ coerce 0 rest)%string
          | S k => String c (coerce k rest)
          end
      end
  end.

Definition json_string (s : string) : string := coerce 0 s.

(** [utf8.ValidString]. *)
Fixpoint well_formed (inside : nat) (s : string) : bool :=
  match s with
  | EmptyString => true
  | String c rest =>
      match inside with
      | S k => well_formed k rest
      | O =>
          match rune_width s with
          | O => false
          | S k => well_formed k rest
          end
      end
  end.

Definition valid_utf8 (s : string) : bool := well_formed 0 s.

End GoJSON.

(** ** What a run of a function that may panic or loop yields *)

Inductive run (A : Type) : Type :=
| Returns (a : A)
| Panics
| OutOfFuel.

Arguments Returns {A} a.
Arguments Panics {A}.
Arguments OutOfFuel {A}.

(** ** The chaincode (Go) *)

Module Chaincode.

Record Candidate : Type := mkCandidate { Name : string; VoteCount : Z }.

Record Ballot : Type :=
  mkBallot { Voter : string; Preferences : list Z; Voted : bool }.

Record Election : Type := mkElection {
  Candidates : list Candidate;
  Seats : Z;
  TotalVotes : Z;
  Ballots : list Ballot
}.

(** The world state of the ledger.  The chaincode stores the JSON encoding
    of an [Election] and decodes it when it reads; the state is kept as the
    decoded record.  Numbers, booleans and lists come back as they were
    written; a string comes back as [GoJSON.json_string] of it, so the
    strings of a stored record are the ones JSON gives back, and a string
    that enters from an argument is rewritten when it is stored.
    [GetState] and [PutState] are the ledger's and do not fail here. *)
Abbreviation world := (gmap string Election).

Definition key : string := "election".

Definition InitElection (w : world) (candidateNames : list string) (seats : Z)
  : option string * world :=
  let candidates :=
    map (fun name => mkCandidate (GoJSON.json_string name) 0) candidateNames in
  let election := mkElection candidates seats 0 [] in
  (None, <[key := election]> w).

(** [for _, b := range election.Ballots { if b.Voter == voter { return error } }] *)
Fixpoint has_voted (ballots : list Ballot) (voter : string) : bool :=
  match ballots with
  | [] => false
  | b :: rest => if String.eqb (Voter b) voter then true else has_voted rest voter
  end.

(** The error returned ([None] is Go's [nil]) and the world state left.
    The duplicate check compares the stored voters with the argument as it
    is given; the new ballot is stored with the argument as JSON gives it
    back.  The strings that were read are stored ones already. *)
Definition CastVote (w : world) (voter : string) (preferences : list Z)
  : option string * world :=
  match w !! key with
  | None => (Some "election does not exist", w)
  | Some election =>
      if has_voted (Ballots election) voter
      then (Some "voter has already voted", w)
      else
        let ballot := mkBallot (GoJSON.json_string voter) preferences true in
        let election' :=
          mkElection (Candidates election) (Seats election)
                     (GoInt.add (TotalVotes election) 1)
                     (Ballots election ++ [ballot]) in
        (None, <[key := election']> w)
  end.

(** [quota := election.TotalVotes / (election.Seats + 1)]; a zero divisor
    panics ([None]). *)
Definition quota_of (totalVotes seats : Z) : option Z :=
  let d := GoInt.add seats 1 in
  if d =? 0 then None else Some (GoInt.quo totalVotes d).

(** [election.Candidates[firstPref].VoteCount++]; an index out of range
    panics. *)
Definition incr_vote (cands : list Candidate) (firstPref : Z)
  : option (list Candidate) :=
  if firstPref <? 0 then None
  else
    match cands !! Z.to_nat firstPref with
    | None => None
    | Some c =>
        Some (<[Z.to_nat firstPref :=
                  mkCandidate (Name c) (GoInt.add (VoteCount c) 1)]> cands)
    end.

(** The first inner loop of [CountVotes]: every ballot adds one to the
    candidate at [Preferences[0]]. *)
Fixpoint count_ballots (cands : list Candidate) (ballots : list Ballot)
  : option (list Candidate) :=
  match ballots with
  | [] => Some cands
  | ballot :: rest =>
      match Preferences ballot with
      | [] => None
      | firstPref :: _ =>
          match incr_vote cands firstPref with
          | None => None
          | Some cands' => count_ballots cands' rest
          end
      end
  end.

(** The second inner loop: every candidate at or above the quota takes a
    seat and has its count reset. *)
Fixpoint elect (quota : Z) (cands : list Candidate) (seatsRemaining : Z)
  : list Candidate * Z :=
  match cands with
  | [] => ([], seatsRemaining)
  | candidate :: rest =>
      if quota <=? VoteCount candidate
      then
        let '(rest', s) := elect quota rest (GoInt.sub seatsRemaining 1) in
        (mkCandidate (Name candidate) 0 :: rest', s)
      else
        let '(rest', s) := elect quota rest seatsRemaining in
        (candidate :: rest', s)
  end.

(** One pass of the body of [for seatsRemaining := ...; seatsRemaining > 0; ]. *)
Definition round (quota : Z) (ballots : list Ballot)
           (st : list Candidate * Z) : option (list Candidate * Z) :=
  match count_ballots (fst st) ballots with
  | None => None
  | Some counted => Some (elect quota counted (snd st))
  end.

Fixpoint count_loop (fuel : nat) (quota : Z) (ballots : list Ballot)
         (st : list Candidate * Z) : run (list Candidate * Z) :=
  if 0 <? snd st then
    match fuel with
    | O => OutOfFuel
    | S fuel' =>
        match round quota ballots st with
        | None => Panics
        | Some st' => count_loop fuel' quota ballots st'
        end
    end
  else Returns st.

(** The counting of [CountVotes], from the decoded election to the state of
    the loop when it is left. *)
Definition tally (fuel : nat) (election : Election) : run (list Candidate * Z) :=
  match quota_of (TotalVotes election) (Seats election) with
  | None => Panics
  | Some quota =>
      count_loop fuel quota (Ballots election)
                 (Candidates election, Seats election)
  end.

(** [CountVotes] writes back the strings it read, which are stored ones
    already. *)
Definition CountVotes (fuel : nat) (w : world) : run (option string * world) :=
  match w !! key with
  | None => Returns (Some "election does not exist", w)
  | Some election =>
      match tally fuel election with
      | Returns (cands, _) =>
          let election' :=
            mkElection cands (Seats election) (TotalVotes election)
                       (Ballots election) in
          Returns (None, <[key := election']> w)
      | Panics => Panics
      | OutOfFuel => OutOfFuel
      end
  end.

Definition GetElectionResults (w : world) : option (list Candidate) * option string :=
  match w !! key with
  | None => (None, Some "election does not exist")
  | Some election => (Some (Candidates election), None)
  end.

End Chaincode.

(** ** Solidity's [uint] (256 bits, checked arithmetic of a 0.8 compiler) *)

Module Uint.

Definition max : N := (2 ^ 256 - 1)%N.

(** [None] is the revert of an overflow, an underflow or a zero divisor. *)
Definition add (a b : N) : option N :=
  if (a + b <=? max)%N then Some (a + b)%N else None.

Definition sub (a b : N) : option N :=
  if (b <=? a)%N then Some (a - b)%N else None.

Definition div (a b : N) : option N :=
  if (b =? 0)%N then None else Some (a / b)%N.

End Uint.

(** What a transaction yields: the new storage, or a revert that leaves the
    storage as it was.  Gas is not metered: a loop that never exits shows as
    [NoFuel] for every fuel (the EVM would stop it when the gas runs out). *)
Inductive tx (A : Type) : Type :=
| Success (a : A)
| Reverted (reason : string)
| NoFuel.

Arguments Success {A} a.
Arguments Reverted {A} reason.
Arguments NoFuel {A}.

(** ** stvVote.sol *)

Module STVVote.

Local Open Scope N_scope.

Record Candidate : Type := mkCandidate { name : string; voteCount : N }.

Record Ballot : Type :=
  mkBallot { voter : N; preferences : list N; voted : bool }.

Record storage : Type := mkStorage {
  owner : N;
  candidates : list Candidate;
  ballots : gmap N Ballot;
  totalVotes : N;
  seats : N
}.

(** [ballots[a]]: a mapping reads the zero value where nothing was written. *)
Definition ballot_at (s : storage) (a : N) : Ballot :=
  default (mkBallot 0 [] false) (ballots s !! a).

Definition constructor (sender : N) (candidateNames : list string) (_seats : N)
  : storage :=
  mkStorage sender (map (fun n => mkCandidate n 0) candidateNames) ∅ 0 _seats.

Definition vote (s : storage) (sender : N) (prefs : list N) : tx storage :=
  if voted (ballot_at s sender) then Reverted "Already voted."
  else if negb (Nat.eqb (length prefs) (length (candidates s)))
  then Reverted "Invalid ballot."
  else
    match Uint.add (totalVotes s) 1 with
    | None => Reverted "Panic(0x11)"
    | Some total =>
        Success (mkStorage (owner s) (candidates s)
                           (<[sender := mkBallot sender prefs true]> (ballots s))
                           total (seats s))
    end.

(** One pass of the body of [for (uint i = 0; i < totalVotes; i++)]:
    [address voter = ballots[msg.sender].voter;
     uint firstPref = ballots[voter].preferences[0];
     candidates[firstPref].voteCount++;]
    The ballot read is the one of [msg.sender]'s recorded voter, whatever
    [i]; an empty [preferences], an index past the candidates and an
    overflow revert. *)
Definition count_one (s : storage) (sender : N) (cands : list Candidate)
  : option (list Candidate) :=
  let voter := voter (ballot_at s sender) in
  match preferences (ballot_at s voter) with
  | [] => None
  | firstPref :: _ =>
      match cands !! N.to_nat firstPref with
      | None => None
      | Some c =>
          match Uint.add (voteCount c) 1 with
          | None => None
          | Some v => Some (<[N.to_nat firstPref := mkCandidate (name c) v]> cands)
          end
      end
  end.

Fixpoint count_first (n : nat) (s : storage) (sender : N) (cands : list Candidate)
  : option (list Candidate) :=
  match n with
  | O => Some cands
  | S n' =>
      match count_one s sender cands with
      | None => None
      | Some cands' => count_first n' s sender cands'
      end
  end.

(** [for (uint i = 0; i < candidates.length; i++)]: [seats--] reverts below
    zero. *)
Fixpoint elect (quota : N) (cands : list Candidate) (seats : N)
  : option (list Candidate * N) :=
  match cands with
  | [] => Some ([], seats)
  | c :: rest =>
      if quota <=? voteCount c
      then
        match Uint.sub seats 1 with
        | None => None
        | Some seats' =>
            match elect quota rest seats' with
            | None => None
            | Some (rest', n) => Some (mkCandidate (name c) 0 :: rest', n)
            end
        end
      else
        match elect quota rest seats with
        | None => None
        | Some (rest', n) => Some (c :: rest', n)
        end
  end.

(** [uint quota = totalVotes / (seats + 1) + 1]. *)
Definition quota_of (totalVotes seats : N) : option N :=
  match Uint.add seats 1 with
  | None => None
  | Some d =>
      match Uint.div totalVotes d with
      | None => None
      | Some q => Uint.add q 1
      end
  end.

(** [while (seats > 0) { ... }], on the candidates and [seats] in storage.
    The array [remainingSeats] that [countVotes] fills before the loop is
    never read and is left out. *)
Fixpoint count_loop (fuel : nat) (quota : N) (s : storage) (sender : N)
         (st : list Candidate * N) : tx (list Candidate * N) :=
  if 0 <? snd st then
    match fuel with
    | O => NoFuel
    | S fuel' =>
        match count_first (N.to_nat (totalVotes s)) s sender (fst st) with
        | None => Reverted "Panic"
        | Some counted =>
            match elect quota counted (snd st) with
            | None => Reverted "Panic(0x11)"
            | Some st' => count_loop fuel' quota s sender st'
            end
        end
    end
  else Success st.

Definition countVotes (fuel : nat) (s : storage) (sender : N) : tx storage :=
  if negb (sender =? owner s) then Reverted "Not authorized."
  else
    match quota_of (totalVotes s) (seats s) with
    | None => Reverted "Panic(0x11)"
    | Some quota =>
        match count_loop fuel quota s sender (candidates s, seats s) with
        | Success (cands, n) =>
            Success (mkStorage (owner s) cands (ballots s) (totalVotes s) n)
        | Reverted r => Reverted r
        | NoFuel => NoFuel
        end
    end.

Definition getCandidates (s : storage) : list Candidate := candidates s.

End STVVote.

(** ** STVContract.sol: the voting entry point *)

Module STVContract.

Local Open Scope N_scope.

Record Candidate : Type := mkCandidate { name : string; voteCount : N }.

Record Voter : Type := mkVoter { voted : bool; preferences : list N }.

Record storage : Type := mkStorage {
  owner : N;
  voters : gmap N Voter;
  candidates : list Candidate;
  quorum : N;
  totalVotes : N
}.

Definition constructor (sender : N) (candidateNames : list string) (_quorum : N)
  : storage :=
  mkStorage sender ∅ (map (fun n => mkCandidate n 0) candidateNames) _quorum 0.

Definition voter_at (s : storage) (a : N) : Voter :=
  default (mkVoter false []) (voters s !! a).

(** [vote] under its modifier [hasNotVoted]. *)
Definition vote (s : storage) (sender : N) (prefs : list N) : tx storage :=
  if voted (voter_at s sender) then Reverted "You have already voted"
  else if negb (Nat.eqb (length prefs) (length (candidates s)))
  then Reverted "Invalid vote format"
  else
    match Uint.add (totalVotes s) 1 with
    | None => Reverted "Panic(0x11)"
    | Some total =>
        Success (mkStorage (owner s)
                           (<[sender := mkVoter true prefs]> (voters s))
                           (candidates s) (quorum s) total)
    end.

End STVContract.

(** ** tallying.go: the flat rank-weighted tally *)

Module Tallying.

Record Candidata : Type := mkCandidata { Nome : string; Votos : Z }.

Fixpoint contains (candidatasValidas : list string) (candidata : string) : bool :=
  match candidatasValidas with
  | [] => false
  | c :: rest => if String.eqb c candidata then true else contains rest candidata
  end.

(** [for _, candidata := range candidatasValidas { resultados[candidata] = 0 }] *)
Definition zero_resultados (candidatasValidas : list string) : gmap string Z :=
  foldl (fun resultados candidata => <[candidata := 0]> resultados) ∅
        candidatasValidas.

(** [resultados[candidata] += pesos[i]]; a key not yet in the map reads 0. *)
Definition add_peso (resultados : gmap string Z) (candidata : string) (peso : Z)
  : gmap string Z :=
  <[candidata := GoInt.add (default 0 (resultados !! candidata)) peso]> resultados.

(** [for i, candidata := range voto { ... }], from position [i] on. *)
Fixpoint apply_voto (candidatasValidas : list string) (pesos : list Z) (i : nat)
         (voto : list string) (resultados : gmap string Z) : gmap string Z :=
  match voto with
  | [] => resultados
  | candidata :: rest =>
      apply_voto candidatasValidas pesos (S i) rest
        (if Nat.ltb i (length pesos) && contains candidatasValidas candidata
         then add_peso resultados candidata (nth i pesos 0)
         else resultados)
  end.

(** The map [resultados] when both loops are done. *)
Definition totais (votos : list (list string)) (candidatasValidas : list string)
           (pesos : list Z) : gmap string Z :=
  foldl (fun resultados voto => apply_voto candidatasValidas pesos 0 voto resultados)
        (zero_resultados candidatasValidas) votos.

Definition to_candidata (entry : string * Z) : Candidata :=
  mkCandidata (fst entry) (snd entry).

(** [for nome, total := range resultados { listaResultados = append(...) }]:
    Go visits the entries of a map in an order it does not fix, so the list
    may be any arrangement of the entries. *)
Definition ranged (resultados : gmap string Z) (lista : list Candidata) : Prop :=
  Permutation (map to_candidata (map_to_list resultados)) lista.

(** The comparison handed to [sort.Slice]. *)
Definition less (a b : Candidata) : bool := Votos b <? Votos a.

(** [sort.Slice] is Go's library; its contract: the slice is rearranged so
    that no later element is [less] than an earlier one, and elements that
    compare equal may end in any order (the sort is not stable). *)
Definition sort_Slice (less : Candidata -> Candidata -> bool)
           (input output : list Candidata) : Prop :=
  Permutation input output /\
  StronglySorted (fun x y => less y x = false) output.

(** [calcularTotais votos candidatasValidas pesos] may return [out]. *)
Definition calcularTotais (votos : list (list string))
           (candidatasValidas : list string) (pesos : list Z)
           (out : list Candidata) : Prop :=
  exists lista,
    ranged (totais votos candidatasValidas pesos) lista /\
    sort_Slice less lista out.

(** One run that can be computed: the map visited in key order and the
    insertion sort that [sort.Slice] performs on a slice of at most 12
    elements ([for i := 1; i < n; i++ { for j := i; j > 0 && less(j, j-1);
    j-- { swap(j, j-1) } }]).  [sorted_rev] is the sorted prefix, last
    element first. *)
Fixpoint insert_back (x : Candidata) (sorted_rev : list Candidata) : list Candidata :=
  match sorted_rev with
  | [] => [x]
  | y :: rest => if less x y then y :: insert_back x rest else x :: y :: rest
  end.

Definition insertion_sort (lista : list Candidata) : list Candidata :=
  rev (foldl (fun sorted_rev x => insert_back x sorted_rev) [] lista).

Definition calcularTotais_run (votos : list (list string))
           (candidatasValidas : list string) (pesos : list Z) : list Candidata :=
  insertion_sort (map to_candidata (map_to_list (totais votos candidatasValidas pesos))).

(** The total the flat-weighted rule gives candidate [c]: over all ballots,
    the weight of every rank at which [c] stands, a rank past the end of
    [rankWeights] counting 0. *)
Fixpoint ballot_weight (c : string) (rankWeights : list Z) (i : nat)
         (ballot : list string) : Z :=
  match ballot with
  | [] => 0
  | x :: rest =>
      (if String.eqb x c then nth i rankWeights 0 else 0)
      + ballot_weight c rankWeights (S i) rest
  end.

Fixpoint weighted_total (c : string) (rankWeights : list Z)
         (ballots : list (list string)) : Z :=
  match ballots with
  | [] => 0
  | b :: rest => ballot_weight c rankWeights 0 b + weighted_total c rankWeights rest
  end.

End Tallying.

(** * The specification's side, and inputs

    The definitions below are not code of the repository.  They name what
    the properties are stated with, the rules of the specification that the
    code is compared with, and the elections used as concrete inputs. *)

(** The Droop quota of the specification: [floor(V / (seats + 1)) + 1]. *)
Definition droop_quota (V seats : Z) : Z := V / (seats + 1) + 1.

(** ** Counting rounds of the chaincode *)

Module CountSpec.

Import Chaincode.

(** How many ballots have candidate [j] at [Preferences[0]]. *)
Fixpoint votes_for (j : nat) (ballots : list Ballot) : Z :=
  match ballots with
  | [] => 0
  | b :: rest =>
      match Preferences b with
      | p :: _ => if p =? Z.of_nat j then 1 else 0
      | [] => 0
      end + votes_for j rest
  end.

(** A ballot the counting pass can read: it has a first preference, and
    that is the index of one of the [n] candidates. *)
Definition valid_first (n : nat) (b : Ballot) : bool :=
  match Preferences b with
  | [] => false
  | p :: _ => (0 <=? p) && (p <? Z.of_nat n)
  end.

(** What the election pass leaves of one candidate. *)
Definition reset_elected (quota : Z) (c : Candidate) : Candidate :=
  if quota <=? VoteCount c then mkCandidate (Name c) 0 else c.

(** How many candidates stand at or above the quota. *)
Fixpoint elected_count (quota : Z) (cands : list Candidate) : Z :=
  match cands with
  | [] => 0
  | c :: rest =>
      (if quota <=? VoteCount c then 1 else 0) + elected_count quota rest
  end.

(** The votes the candidates at or above the quota hold. *)
Fixpoint elected_votes (quota : Z) (cands : list Candidate) : Z :=
  match cands with
  | [] => 0
  | c :: rest =>
      (if quota <=? VoteCount c then VoteCount c else 0) + elected_votes quota rest
  end.

Fixpoint sum_votes (cands : list Candidate) : Z :=
  match cands with
  | [] => 0
  | c :: rest => VoteCount c + sum_votes rest
  end.

(** Every count is a value an [int] holds. *)
Definition counts_in_range (cands : list Candidate) : Prop :=
  Forall (fun c => GoInt.in_range (VoteCount c)) cands.

(** The count of candidate [j]. *)
Definition vote_at (j : nat) (cands : list Candidate) : Z :=
  match cands !! j with
  | Some c => VoteCount c
  | None => 0
  end.



(** A stored election as [InitElection] and [CastVote] build it, with
    ballots the counting pass can read: at least one seat and one
    candidate, [TotalVotes] the number of ballots, every ballot with a first
    preference that names a candidate, and counts and slice lengths far
    from the end of [int]. *)
Definition valid_election (e : Election) : Prop :=
  1 <= Seats e <= GoInt.int_max
  /\ (1 <= length (Candidates e))%nat
  /\ Z.of_nat (length (Candidates e)) <= 2 ^ 62
  /\ TotalVotes e = Z.of_nat (length (Ballots e))
  /\ Z.of_nat (length (Ballots e)) < 2 ^ 62
  /\ forallb (valid_first (length (Candidates e))) (Ballots e) = true
  /\ Forall (fun c => 0 <= VoteCount c <= 2 ^ 62) (Candidates e).

End CountSpec.

(** ** The specification's rules, read on the chaincode's state *)

Module Transfer.

Import Chaincode CountSpec.

(** C3 read on the chaincode's state: when the election pass of a round
    elects candidate [j] and leaves seats to fill, the ballots counted for
    [j] are moved on to their next preference, so the counting pass of the
    next round adds none of them to [j] again. *)
Definition ballots_move_on (quota : Z) (ballots : list Ballot)
           (cands : list Candidate) (sr : Z) : Prop :=
  forall counted cands' sr' recounted j c,
    count_ballots cands ballots = Some counted ->
    elect quota counted sr = (cands', sr') ->
    counted !! j = Some c -> quota <= VoteCount c ->
    0 < sr' ->
    count_ballots cands' ballots = Some recounted ->
    vote_at j recounted = vote_at j cands'.

(** C5 read on the chaincode's state: every ballot weighs 1 and none is
    ever set aside as exhausted, so after a round the candidates' counts
    add up to the number of ballots. *)
Definition votes_conserved (quota : Z) (ballots : list Ballot)
           (cands : list Candidate) (sr : Z) : Prop :=
  forall cands' sr',
    round quota ballots (cands, sr) = Some (cands', sr') ->
    sum_votes cands' = Z.of_nat (length ballots).

End Transfer.

(** ** The order of the flat-weighted ranking *)

Module Ranking.

Import Tallying.


(** C9 as stated: totals descend along the list, and of two candidates with
    the same total the one with the smaller identifier comes first. *)
Definition ranked_with_tie_break (out : list Candidata) : Prop :=
  forall (i j : nat) (a b : Candidata),
    (i < j)%nat -> out !! i = Some a -> out !! j = Some b ->
    Votos b < Votos a
    \/ (Votos a = Votos b /\ String.ltb (Nome a) (Nome b) = true).

End Ranking.

(** ** Ballot validation *)

Module BallotRules.

(** An identifier is known when it is the index of one of [n] candidates. *)
Definition known (n : nat) (p : N) : Prop := (N.to_nat p < n)%nat.

(** The rejection rule of C8 for a roster of [n] candidates. *)
Definition must_reject (n : nat) (prefs : list N) : Prop :=
  prefs = []
  \/ (n < length prefs)%nat
  \/ (exists p, In p prefs /\ ~ known n p)
  \/ ~ List.NoDup prefs.

(** C8 for one call of stvVote.sol's [vote] by a sender who has not voted. *)
Definition STVVote_rejects_exactly (s : STVVote.storage) (sender : N)
           (prefs : list N) : Prop :=
  (exists reason, STVVote.vote s sender prefs = Reverted reason)
  <-> must_reject (length (STVVote.candidates s)) prefs.

(** The same for STVContract.sol's [vote]. *)
Definition STVContract_rejects_exactly (s : STVContract.storage) (sender : N)
           (prefs : list N) : Prop :=
  (exists reason, STVContract.vote s sender prefs = Reverted reason)
  <-> must_reject (length (STVContract.candidates s)) prefs.

End BallotRules.

(** ** Casting a vote *)

Module Casting.

Import Chaincode.


End Casting.

(** ** Invariants of the stored state *)

Module Invariants.

(** No voter has two ballots in the election. *)
Definition distinct_voters (e : Chaincode.Election) : Prop :=
  NoDup (map Chaincode.Voter (Chaincode.Ballots e)).

(** Every count is 0 or below the quota: the state the election pass
    leaves. *)
Definition settled (quota : Z) (cands : list Chaincode.Candidate) : Prop :=
  Forall (fun c => Chaincode.VoteCount c = 0 \/ Chaincode.VoteCount c < quota)
         cands.


(** STVContract.sol: every recorded voter is marked as voted, and
    [totalVotes] is their number. *)
Definition STVContract_ledger (s : STVContract.storage) : Prop :=
  (forall a v, STVContract.voters s !! a = Some v -> STVContract.voted v = true)
  /\ STVContract.totalVotes s = N.of_nat (size (STVContract.voters s)).

End Invariants.

(** ** Concrete inputs *)

Module Inputs.

Import Chaincode.

(** One candidate, one seat, no vote. *)
Definition no_votes : Election := mkElection [mkCandidate "A" 0] 1 0 [].

(** Two candidates, two seats, three ballots that rank A before B. *)
Definition three_for_A : Election :=
  mkElection [mkCandidate "A" 0; mkCandidate "B" 0] 2 3
             [mkBallot "v1" [0; 1] true; mkBallot "v2" [0; 1] true;
              mkBallot "v3" [0; 1] true].

(** The election of the specification's STV scenario: candidates A, B, C,
    one seat, ballots [A,B,C], [A,C,B], [B,A,C], [C,B,A]. *)
Definition scenario : Election :=
  mkElection [mkCandidate "A" 0; mkCandidate "B" 0; mkCandidate "C" 0] 1 4
             [mkBallot "v1" [0; 1; 2] true; mkBallot "v2" [0; 2; 1] true;
              mkBallot "v3" [1; 0; 2] true; mkBallot "v4" [2; 1; 0] true].



(** Two candidates, one seat, one ballot for each. *)
Definition one_seat_two_leaders : Election :=
  mkElection [mkCandidate "A" 0; mkCandidate "B" 0] 1 2
             [mkBallot "v1" [0; 1] true; mkBallot "v2" [1; 0] true].

(** The two contracts right after deployment, three candidates each. *)
Definition fresh_STVVote : STVVote.storage :=
  STVVote.constructor 7 ["Alice"; "Bob"; "Charlie"] 1.

Definition fresh_STVContract : STVContract.storage :=
  STVContract.mkStorage 7 ∅
    [STVContract.mkCandidate "Alice" 0; STVContract.mkCandidate "Bob" 0;
     STVContract.mkCandidate "Charlie" 0] 100 0.

End Inputs.

Module ContractInputs.


(** The same with the owner's ballot missing. *)
Definition owner_absent : STVVote.storage :=
  STVVote.mkStorage 7
    [STVVote.mkCandidate "Alice" 0; STVVote.mkCandidate "Bob" 0;
     STVVote.mkCandidate "Charlie" 0]
    (<[8%N := STVVote.mkBallot 8 [0%N; 1%N; 2%N] true]> ∅)
    1 1.

End ContractInputs.

(** * Properties *)

(** ** Go's [int] arithmetic *)

Section GoIntFacts.

Import GoInt.

Lemma wrap_id (z : Z) : in_range z -> wrap z = z.
Proof.
  unfold in_range, wrap, int_min, int_max. intros Hz.
  rewrite Z.mod_small; lia.
Qed.

Lemma wrap_in_range (z : Z) : in_range (wrap z).
Proof.
  unfold in_range, wrap, int_min, int_max.
  pose proof (Z.mod_pos_bound (z - - 2 ^ 63) (2 ^ 64)). lia.
Qed.

Lemma wrap_add_l (a b : Z) : wrap (wrap a + b) = wrap (a + b).
Proof.
  unfold wrap. f_equal.
  replace ((a - int_min) mod 2 ^ 64 + int_min + b - int_min)
    with ((a - int_min) mod 2 ^ 64 + b) by lia.
  rewrite Zplus_mod_idemp_l. f_equal. lia.
Qed.

Lemma wrap_add_r (a b : Z) : wrap (a + wrap b) = wrap (a + b).
Proof. rewrite Z.add_comm, wrap_add_l. f_equal. lia. Qed.

Lemma add_small (a b : Z) : in_range (a + b) -> add a b = a + b.
Proof. apply wrap_id. Qed.

Lemma sub_small (a b : Z) : in_range (a - b) -> sub a b = a - b.
Proof. apply wrap_id. Qed.

End GoIntFacts.

(** ** Strings through JSON *)

Section GoJSONFacts.

Import GoJSON.

(** A well-formed string is stored as it is. *)
Lemma coerce_well_formed_id (s : string) :
  forall k, well_formed k s = true -> coerce k s = s.
Proof.
  induction s as [|c r IH]; intros k Hk; [reflexivity|].
  destruct k as [|k]; cbn [coerce well_formed] in *.
  - destruct (rune_width (String c r)) as [|k]; [discriminate|].
    rewrite (IH k Hk). reflexivity.
  - rewrite (IH k Hk). reflexivity.
Qed.

Lemma json_string_valid (s : string) :
  valid_utf8 s = true -> json_string s = s.
Proof. apply coerce_well_formed_id. Qed.

Lemma rune_width_coerce (c : ascii) (r : string) (k : nat) :
  rune_width (String c r) = S k -> rune_width (String c (coerce k r)) = S k.
Proof.
  unfold rune_width.
  destruct (N_of_ascii c <? 128)%N; [intros [= <-]; reflexivity|].
  destruct (N_of_ascii c <? 194)%N; [discriminate|].
  destruct (N_of_ascii c <? 224)%N.
  { destruct r as [|c1 r1]; [discriminate|].
    destruct (continuation c1) eqn:E; [|discriminate].
    intros [= <-]. cbn [coerce]. rewrite E. reflexivity. }
  destruct (N_of_ascii c <? 240)%N.
  { destruct r as [|c1 [|c2 r2]]; try discriminate.
    destruct (second_of_three (N_of_ascii c) c1 && continuation c2) eqn:E;
      [|discriminate].
    intros [= <-]. cbn [coerce]. rewrite E. reflexivity. }
  destruct (N_of_ascii c <? 245)%N; [|discriminate].
  destruct r as [|c1 [|c2 [|c3 r3]]]; try discriminate.
  destruct (second_of_four (N_of_ascii c) c1 && continuation c2 && continuation c3)
    eqn:E; [|discriminate].
  intros [= <-]. cbn [coerce]. rewrite E. reflexivity.
Qed.

Lemma well_formed_replacement (t : string) :
  well_formed 0 (replacement ++ t) = well_formed 0 t.
Proof. reflexivity. Qed.

(** What is stored is well-formed UTF-8. *)
Lemma coerce_is_well_formed (s : string) :
  forall k, well_formed k (coerce k s) = true.
Proof.
  induction s as [|c r IH]; intros k; [reflexivity|].
  destruct k as [|k]; cbn [coerce].
  - destruct (rune_width (String c r)) as [|k] eqn:W.
    + rewrite well_formed_replacement. apply IH.
    + cbn [well_formed]. rewrite (rune_width_coerce c r k W). apply IH.
  - cbn [well_formed]. apply IH.
Qed.

Lemma json_string_is_valid (s : string) : valid_utf8 (json_string s) = true.
Proof. apply coerce_is_well_formed. Qed.

End GoJSONFacts.

(** ** The chaincode: casting a vote *)

Section CastVoteFacts.

Import Chaincode.

Lemma has_voted_true (ballots : list Ballot) (voter : string) :
  has_voted ballots voter = true <-> exists b, In b ballots /\ Voter b = voter.
Proof.
  induction ballots as [|b rest IH]; simpl.
  - split; [discriminate | intros (b & [] & _)].
  - destruct (String.eqb (Voter b) voter) eqn:E.
    + apply String.eqb_eq in E. split; [|reflexivity].
      intros _. exists b. auto.
    + apply String.eqb_neq in E. rewrite IH. split.
      * intros (b' & Hin & Hv). exists b'. auto.
      * intros (b' & [Heq | Hin] & Hv); [congruence|]. exists b'. auto.
Qed.




End CastVoteFacts.

(** ** The quota *)

Section QuotaFacts.

(** What the chaincode computes, for every vote count and seat count an
    [int] can hold with [seats >= 1]: the quotient alone. *)
Lemma Chaincode_quota_is_quotient (V seats : Z) :
  0 <= V <= GoInt.int_max -> 1 <= seats < GoInt.int_max ->
  Chaincode.quota_of V seats = Some (V / (seats + 1)).
Proof.
  unfold GoInt.int_max. intros HV Hs. unfold Chaincode.quota_of, GoInt.quo.
  rewrite add_small by (unfold GoInt.in_range, GoInt.int_min, GoInt.int_max; lia).
  destruct (Z.eqb_spec (seats + 1) 0) as [E|E]; [lia|].
  rewrite Z.quot_div_nonneg by lia.
  rewrite wrap_id; [reflexivity|].
  assert (0 <= V / (seats + 1) <= V).
  { split; [apply Z.div_pos; lia|].
    apply Z.div_le_upper_bound; nia. }
  unfold GoInt.in_range, GoInt.int_min, GoInt.int_max. lia.
Qed.

(** The contract stvVote.sol computes the Droop quota. *)
Lemma STVVote_quota_is_droop (V seats : N) :
  (V <= Uint.max)%N -> (1 <= seats < Uint.max)%N ->
  STVVote.quota_of V seats = Some (Z.to_N (droop_quota (Z.of_N V) (Z.of_N seats))).
Proof.
  intros HV Hs. unfold STVVote.quota_of, Uint.add, Uint.div, droop_quota.
  assert (Hd : (seats + 1 <=? Uint.max)%N = true) by (apply N.leb_le; lia).
  rewrite Hd.
  assert (Hz : (seats + 1 =? 0)%N = false) by (apply N.eqb_neq; lia).
  rewrite Hz.
  assert (Hq : (V / (seats + 1) <= V / 2)%N).
  { apply N.div_le_compat_l. lia. }
  assert (Hh : (V / 2 < Uint.max)%N).
  { unfold Uint.max in *. apply N.Div0.div_lt_upper_bound. lia. }
  assert (Hb : (V / (seats + 1) + 1 <=? Uint.max)%N = true) by (apply N.leb_le; lia).
  rewrite Hb. f_equal.
  replace (Z.of_N seats + 1) with (Z.of_N (seats + 1)) by lia.
  rewrite <- N2Z.inj_div. generalize (V / (seats + 1))%N. intros q. lia.
Qed.

(** C1, at 4 votes and 1 seat: the Droop quota is 3, the contract
    stvVote.sol computes 3, and the chaincode's [CountVotes] computes 2. *)
Theorem CountVotes_quota_lacks_one :
  droop_quota 4 1 = 3
  /\ STVVote.quota_of 4 1 = Some 3%N
  /\ Chaincode.quota_of 4 1 = Some 2.
Proof. repeat split. Qed.

End QuotaFacts.

(** ** The chaincode: the two passes of a counting round *)

Section RoundFacts.

Import Chaincode CountSpec.

Lemma elect_fst (quota : Z) (cands : list Candidate) (sr : Z) :
  fst (elect quota cands sr) = map (reset_elected quota) cands.
Proof.
  revert sr. induction cands as [|c rest IH]; intros sr; simpl; [reflexivity|].
  unfold reset_elected at 1.
  destruct (quota <=? VoteCount c).
  - specialize (IH (GoInt.sub sr 1)).
    destruct (elect quota rest (GoInt.sub sr 1)). simpl in *. congruence.
  - specialize (IH sr). destruct (elect quota rest sr). simpl in *. congruence.
Qed.

Lemma elected_count_bounds (quota : Z) (cands : list Candidate) :
  0 <= elected_count quota cands <= Z.of_nat (length cands).
Proof.
  induction cands as [|c rest IH]; simpl; [lia|].
  destruct (quota <=? VoteCount c); lia.
Qed.

Lemma elect_snd (quota : Z) (cands : list Candidate) (sr : Z) :
  GoInt.in_range sr ->
  snd (elect quota cands sr) = GoInt.wrap (sr - elected_count quota cands).
Proof.
  revert sr. induction cands as [|c rest IH]; intros sr Hsr; simpl.
  - rewrite Z.sub_0_r. symmetry. apply wrap_id, Hsr.
  - destruct (quota <=? VoteCount c).
    + specialize (IH (GoInt.sub sr 1) (wrap_in_range _)).
      destruct (elect quota rest (GoInt.sub sr 1)). simpl in *. rewrite IH.
      unfold GoInt.sub.
      replace (GoInt.wrap (sr - 1) - elected_count quota rest)
        with (GoInt.wrap (sr - 1) + - elected_count quota rest) by lia.
      rewrite wrap_add_l. f_equal. lia.
    + specialize (IH sr Hsr). destruct (elect quota rest sr). simpl in *.
      rewrite IH. f_equal.
Qed.

Lemma incr_vote_valid (cands : list Candidate) (p : Z) :
  0 <= p < Z.of_nat (length cands) ->
  exists c, cands !! Z.to_nat p = Some c /\
    incr_vote cands p =
      Some (<[Z.to_nat p := mkCandidate (Name c) (GoInt.add (VoteCount c) 1)]> cands).
Proof.
  intros Hp. unfold incr_vote.
  destruct (Z.ltb_spec p 0) as [?|_]; [lia|].
  destruct (cands !! Z.to_nat p) as [c|] eqn:E.
  - exists c. auto.
  - apply lookup_ge_None in E. lia.
Qed.

(** The counting pass on ballots it can read: it does not panic, keeps the
    roster and the names, and adds to each count the number of ballots whose
    first preference is that candidate. *)
Lemma count_ballots_spec (ballots : list Ballot) (cands : list Candidate) :
  counts_in_range cands ->
  forallb (valid_first (length cands)) ballots = true ->
  exists counted,
    count_ballots cands ballots = Some counted
    /\ length counted = length cands
    /\ forall j c, cands !! j = Some c ->
         counted !! j =
           Some (mkCandidate (Name c)
                   (GoInt.wrap (VoteCount c + votes_for j ballots))).
Proof.
  revert cands. induction ballots as [|b rest IH]; intros cands Hr Hv; simpl in *.
  - exists cands. repeat split. intros j [nm v] Hj. rewrite Hj. simpl.
    rewrite Z.add_0_r, wrap_id; [reflexivity|].
    unfold counts_in_range in Hr. rewrite Forall_forall in Hr.
    apply (Hr (mkCandidate nm v)). eapply list_elem_of_lookup_2, Hj.
  - apply andb_prop in Hv as [Hb Hrest]. unfold valid_first in Hb.
    destruct (Preferences b) as [|p ps]; [discriminate|].
    apply andb_prop in Hb as [Hp0 Hpn].
    apply Z.leb_le in Hp0. apply Z.ltb_lt in Hpn.
    destruct (incr_vote_valid cands p) as (c0 & Hc0 & Hincr); [lia|].
    rewrite Hincr.
    set (cands' := <[Z.to_nat p := _]> cands) in *.
    assert (Hlen : length cands' = length cands) by apply length_insert.
    destruct (IH cands') as (counted & Hcount & Hl & Hat).
    + apply Forall_insert; [exact Hr|]. apply wrap_in_range.
    + rewrite Hlen. exact Hrest.
    + exists counted. split; [exact Hcount|]. split; [congruence|].
      intros j c Hj.
      destruct (decide (j = Z.to_nat p)) as [->|Hne].
      * assert (c = c0) by congruence. subst c.
        rewrite (Hat (Z.to_nat p) (mkCandidate (Name c0) (GoInt.add (VoteCount c0) 1))).
        2:{ subst cands'. apply list_lookup_insert_eq.
            eapply lookup_lt_Some, Hc0. }
        simpl. rewrite Z2Nat.id by lia. rewrite Z.eqb_refl.
        unfold GoInt.add. rewrite wrap_add_l. do 3 f_equal. lia.
      * rewrite (Hat j c).
        2:{ subst cands'. rewrite list_lookup_insert_ne by congruence. exact Hj. }
        destruct (Z.eqb_spec p (Z.of_nat j)) as [E|E]; [lia|].
        reflexivity.
Qed.



Lemma elect_pair (quota : Z) (cands : list Candidate) (sr : Z) :
  GoInt.in_range sr ->
  elect quota cands sr =
    (map (reset_elected quota) cands,
     GoInt.wrap (sr - elected_count quota cands)).
Proof.
  intros Hsr. rewrite (surjective_pairing (elect quota cands sr)).
  rewrite elect_fst, elect_snd by exact Hsr. reflexivity.
Qed.

End RoundFacts.

(** ** The chaincode: the counting loop is left *)

Section LoopTermination.

Import Chaincode CountSpec.

Variables (quota : Z) (ballots : list Ballot) (m : nat) (B : Z) (j0 : nat).

Hypothesis Hvalid : forallb (valid_first m) ballots = true.
Hypothesis Hm : (1 <= m)%nat /\ Z.of_nat m <= 2 ^ 62.
Hypothesis HB :
  0 <= B /\ B + Z.of_nat (length ballots) <= GoInt.int_max /\ quota - 1 <= B.
Hypothesis Hj0 : (j0 < m)%nat.
Hypothesis Hprogress : 1 <= votes_for j0 ballots \/ quota <= 0.




End LoopTermination.

(** ** The chaincode: [CountVotes] on a well-formed election *)

Section TallyTermination.

Import Chaincode CountSpec Inputs.




Lemma count_loop_done (fuel : nat) (quota : Z) (ballots : list Ballot)
      (st : list Candidate * Z) :
  snd st <= 0 -> count_loop fuel quota ballots st = Returns st.
Proof.
  intros Hle. destruct fuel; simpl; destruct (Z.ltb_spec 0 (snd st)); auto; lia.
Qed.





(** ** The chaincode: an election without votes *)






(** C7, at two candidates, one seat and the ballots [0,1] and [1,0]: the
    quota is 1, both candidates reach it in the first round, and the loop
    is left with [seatsRemaining = -1]: two candidates took the one seat.
    In the same place stvVote.sol's [seats--] reverts. *)
Theorem CountVotes_overfills_seats :
  tally 1 one_seat_two_leaders
  = Returns ([mkCandidate "A" 0; mkCandidate "B" 0], -1)
  /\ STVVote.elect 1 [STVVote.mkCandidate "A" 1; STVVote.mkCandidate "B" 1] 1
     = None.
Proof. split; reflexivity. Qed.

End TallyTermination.

(** ** The chaincode: what an election does to the votes *)

Section TransferFacts.

Import Chaincode CountSpec Transfer Inputs.

Lemma reset_in_range (quota : Z) (cands : list Candidate) :
  counts_in_range cands -> counts_in_range (map (reset_elected quota) cands).
Proof.
  unfold counts_in_range. intros Hr. rewrite Forall_map.
  eapply Forall_impl; [exact Hr|]. simpl. intros c Hc. unfold reset_elected.
  destruct (quota <=? VoteCount c); [|exact Hc].
  simpl. unfold GoInt.in_range, GoInt.int_min, GoInt.int_max. lia.
Qed.

Lemma counted_in_range (ballots : list Ballot) (cands counted : list Candidate) :
  counts_in_range cands ->
  forallb (valid_first (length cands)) ballots = true ->
  count_ballots cands ballots = Some counted ->
  counts_in_range counted.
Proof.
  intros Hr Hv Hc.
  destruct (count_ballots_spec ballots cands Hr Hv) as (counted' & Hc' & Hl & Hat).
  assert (counted' = counted) by congruence. subst counted'.
  unfold counts_in_range. rewrite Forall_lookup. intros j c' Hj.
  destruct (cands !! j) as [c|] eqn:E.
  - rewrite (Hat j c E) in Hj. injection Hj as <-. apply wrap_in_range.
  - apply lookup_ge_None in E. apply lookup_lt_Some in Hj. lia.
Qed.

(** C3, as the chaincode has it.  In a round, each candidate whose count
    has reached the quota takes a seat and has its count set to 0; no
    surplus and no transfer value is computed, the other counts and the
    ballots stay as they are.  The counting pass of the next round then
    adds every ballot, with weight 1, to its first preference again, the
    candidates just elected included. *)
Theorem elected_votes_are_dropped
  (quota : Z) (ballots : list Ballot) (cands : list Candidate) (sr : Z) :
  counts_in_range cands -> GoInt.in_range sr ->
  forallb (valid_first (length cands)) ballots = true ->
  exists counted recounted,
    count_ballots cands ballots = Some counted
    /\ round quota ballots (cands, sr)
       = Some (map (reset_elected quota) counted,
               GoInt.wrap (sr - elected_count quota counted))
    /\ count_ballots (map (reset_elected quota) counted) ballots = Some recounted
    /\ forall j c, counted !! j = Some c ->
         recounted !! j =
           Some (mkCandidate (Name c)
                   (GoInt.wrap ((if quota <=? VoteCount c then 0 else VoteCount c)
                                + votes_for j ballots))).
Proof.
  intros Hr Hsr Hv.
  destruct (count_ballots_spec ballots cands Hr Hv) as (counted & Hc & Hl & Hat).
  pose proof (counted_in_range ballots cands counted Hr Hv Hc) as Hcr.
  destruct (count_ballots_spec ballots (map (reset_elected quota) counted))
    as (recounted & Hc2 & Hl2 & Hat2).
  { apply reset_in_range, Hcr. }
  { rewrite length_map, Hl. exact Hv. }
  exists counted, recounted. split; [exact Hc|]. split; [|split; [exact Hc2|]].
  - unfold round. simpl. rewrite Hc, elect_pair by exact Hsr. reflexivity.
  - intros j c Hj.
    rewrite (Hat2 j (reset_elected quota c)).
    + unfold reset_elected. destruct (quota <=? VoteCount c); reflexivity.
    + rewrite list_lookup_fmap, Hj. reflexivity.
Qed.

Lemma elected_votes_are_dropped_witness :
  exists recounted,
    round 1 (Ballots three_for_A) (Candidates three_for_A, 2)
    = Some ([mkCandidate "A" 0; mkCandidate "B" 0], 1)
    /\ count_ballots [mkCandidate "A" 0; mkCandidate "B" 0] (Ballots three_for_A)
       = Some recounted
    /\ recounted !! 0%nat = Some (mkCandidate "A" 3)
    /\ recounted !! 1%nat = Some (mkCandidate "B" 0).
Proof.
  destruct (elected_votes_are_dropped 1 (Ballots three_for_A)
              (Candidates three_for_A) 2)
    as (counted & recounted & Hc & Hround & Hc2 & Hat).
  - repeat constructor; simpl;
      unfold GoInt.in_range, GoInt.int_min, GoInt.int_max; lia.
  - unfold GoInt.in_range, GoInt.int_min, GoInt.int_max; lia.
  - reflexivity.
  - injection Hc as <-. exists recounted.
    split; [exact Hround|]. split; [exact Hc2|].
    split; [exact (Hat 0%nat _ eq_refl) | exact (Hat 1%nat _ eq_refl)].
Defined.

(** C3 does not hold of the code as stated.  Two candidates, two seats,
    three ballots [0,1]: the quota is 1, the first round counts 3 for A,
    elects A and leaves one seat; the next counting pass counts the same
    three ballots for A again, and none for B. *)
Lemma elected_ballots_stay_put :
  quota_of (TotalVotes three_for_A) (Seats three_for_A) = Some 1
  /\ ~ ballots_move_on 1 (Ballots three_for_A) (Candidates three_for_A)
                       (Seats three_for_A).
Proof.
  split; [reflexivity|]. intros H.
  specialize (H [mkCandidate "A" 3; mkCandidate "B" 0]
                [mkCandidate "A" 0; mkCandidate "B" 0] 1
                [mkCandidate "A" 3; mkCandidate "B" 0] 0%nat (mkCandidate "A" 3)
                eq_refl eq_refl eq_refl).
  simpl in H. unfold vote_at in H. simpl in H.
  assert (3 = 0) by (apply H; [lia | lia | reflexivity]). lia.
Qed.

Lemma sum_votes_insert (cands : list Candidate) (i : nat) (c c' : Candidate) :
  cands !! i = Some c ->
  sum_votes (<[i := c']> cands) = sum_votes cands - VoteCount c + VoteCount c'.
Proof.
  revert i. induction cands as [|x rest IH]; intros [|i] Hi; simpl in *;
    try discriminate.
  - injection Hi as ->. lia.
  - rewrite (IH i Hi). lia.
Qed.

Lemma count_ballots_sum (ballots : list Ballot) :
  forall cands : list Candidate,
    Forall (fun c => GoInt.int_min <= VoteCount c
                     /\ VoteCount c + Z.of_nat (length ballots) <= GoInt.int_max)
           cands ->
    forallb (valid_first (length cands)) ballots = true ->
    exists counted,
      count_ballots cands ballots = Some counted
      /\ length counted = length cands
      /\ sum_votes counted = sum_votes cands + Z.of_nat (length ballots).
Proof.
  induction ballots as [|b rest IH]; intros cands Hb Hv.
  - exists cands. simpl. repeat split. lia.
  - simpl in Hv. apply andb_prop in Hv as [Hfirst Hrest].
    unfold valid_first in Hfirst.
    destruct (Preferences b) as [|p ps] eqn:Hp; [discriminate|].
    apply andb_prop in Hfirst as [Hp0 Hpn].
    apply Z.leb_le in Hp0. apply Z.ltb_lt in Hpn.
    destruct (incr_vote_valid cands p) as (c0 & Hc0 & Hincr); [lia|].
    assert (Hc0b : GoInt.int_min <= VoteCount c0
                   /\ VoteCount c0 + Z.of_nat (length (b :: rest)) <= GoInt.int_max).
    { rewrite Forall_lookup in Hb. exact (Hb _ _ Hc0). }
    simpl length in Hc0b, Hb.
    assert (Hadd : GoInt.add (VoteCount c0) 1 = VoteCount c0 + 1).
    { apply add_small. unfold GoInt.in_range. lia. }
    destruct (IH (<[Z.to_nat p := mkCandidate (Name c0) (GoInt.add (VoteCount c0) 1)]> cands))
      as (counted & Hcount & Hlen & Hsum).
    + apply Forall_insert.
      * eapply Forall_impl; [exact Hb|]. simpl. lia.
      * simpl. rewrite Hadd. lia.
    + rewrite length_insert. exact Hrest.
    + exists counted. simpl. rewrite Hp, Hincr.
      split; [exact Hcount|]. split.
      * rewrite Hlen. apply length_insert.
      * rewrite Hsum, (sum_votes_insert _ _ c0) by exact Hc0.
        simpl. rewrite Hadd. lia.
Qed.

Lemma sum_votes_reset (quota : Z) (cands : list Candidate) :
  sum_votes (map (reset_elected quota) cands)
  = sum_votes cands - elected_votes quota cands.
Proof.
  induction cands as [|c rest IH]; simpl; [reflexivity|].
  rewrite IH. unfold reset_elected.
  destruct (quota <=? VoteCount c); simpl; lia.
Qed.

(** C5, as the chaincode has it.  In every round the counting pass adds
    one vote per ballot to the candidates' counts, whatever was counted in
    earlier rounds, and the election pass then removes the votes of every
    candidate at or above the quota.  So a round changes the sum of the
    counts by the number of ballots less the votes of the candidates it
    elects; no weight is kept for exhausted ballots. *)
Theorem round_vote_accounting
  (quota : Z) (ballots : list Ballot) (cands : list Candidate) (sr : Z) :
  Forall (fun c => GoInt.int_min <= VoteCount c
                   /\ VoteCount c + Z.of_nat (length ballots) <= GoInt.int_max)
         cands ->
  forallb (valid_first (length cands)) ballots = true ->
  exists counted cands' sr',
    count_ballots cands ballots = Some counted
    /\ sum_votes counted = sum_votes cands + Z.of_nat (length ballots)
    /\ round quota ballots (cands, sr) = Some (cands', sr')
    /\ sum_votes cands'
       = sum_votes cands + Z.of_nat (length ballots) - elected_votes quota counted.
Proof.
  intros Hb Hv.
  destruct (count_ballots_sum ballots cands Hb Hv) as (counted & Hc & _ & Hsum).
  exists counted, (fst (elect quota counted sr)), (snd (elect quota counted sr)).
  split; [exact Hc|]. split; [exact Hsum|]. split.
  - unfold round. simpl. rewrite Hc. f_equal. apply surjective_pairing.
  - rewrite elect_fst, sum_votes_reset, Hsum. reflexivity.
Qed.

Lemma round_vote_accounting_witness :
  exists counted cands' sr',
    count_ballots (Candidates scenario) (Ballots scenario) = Some counted
    /\ sum_votes counted = 4
    /\ round 2 (Ballots scenario) (Candidates scenario, 1) = Some (cands', sr')
    /\ sum_votes cands' = 4 - elected_votes 2 counted.
Proof.
  apply (round_vote_accounting 2 (Ballots scenario) (Candidates scenario) 1).
  - repeat constructor; simpl; unfold GoInt.int_min, GoInt.int_max; lia.
  - reflexivity.
Defined.

(** C5 does not hold of the code as stated.  On the specification's STV
    scenario the quota is 2; the first round counts A = 2, B = 1, C = 1,
    elects A and sets its count to 0: the counts then add up to 2, with 4
    ballots cast. *)
Lemma votes_not_conserved :
  quota_of (TotalVotes scenario) (Seats scenario) = Some 2
  /\ round 2 (Ballots scenario) (Candidates scenario, Seats scenario)
     = Some ([mkCandidate "A" 0; mkCandidate "B" 1; mkCandidate "C" 1], 0)
  /\ ~ votes_conserved 2 (Ballots scenario) (Candidates scenario) (Seats scenario).
Proof.
  split; [reflexivity|]. split; [reflexivity|].
  intros H. specialize (H _ _ eq_refl). vm_compute in H. discriminate H.
Qed.

End TransferFacts.

(** ** tallying.go: the totals *)

Section TallyingFacts.

Import Tallying.

Lemma contains_true (validas : list string) (c : string) :
  contains validas c = true <-> In c validas.
Proof.
  induction validas as [|x rest IH]; simpl; [split; [discriminate|tauto]|].
  destruct (String.eqb_spec x c) as [->|Hne].
  - split; auto.
  - rewrite IH. split; [auto|]. intros [?|?]; [congruence|assumption].
Qed.

Lemma zero_resultados_lookup (validas : list string) (c : string) :
  forall acc : gmap string Z,
    foldl (fun resultados candidata => <[candidata := 0]> resultados) acc validas
      !! c
    = if contains validas c then Some 0 else acc !! c.
Proof.
  induction validas as [|x rest IH]; intros acc; simpl; [reflexivity|].
  rewrite IH. destruct (String.eqb_spec x c) as [->|Hne].
  - rewrite lookup_insert_eq. destruct (contains rest c); reflexivity.
  - rewrite lookup_insert_ne by exact Hne. reflexivity.
Qed.

(** One ballot: the entry of a roster candidate moves by the weights of the
    ranks at which the ballot names it; an absent key stays absent. *)
Lemma apply_voto_lookup (validas : list string) (pesos : list Z) (c : string)
      (voto : list string) :
  forall (i : nat) (m : gmap string Z),
    (forall t, contains validas c = true -> m !! c = Some (GoInt.wrap t) ->
       apply_voto validas pesos i voto m !! c
       = Some (GoInt.wrap (t + ballot_weight c pesos i voto)))
    /\ (contains validas c = false -> m !! c = None ->
        apply_voto validas pesos i voto m !! c = None).
Proof.
  induction voto as [|x rest IH]; intros i m; simpl.
  - split; [|auto]. intros t _ Hm. rewrite Z.add_0_r. exact Hm.
  - split.
    + intros t Hc Hm.
      destruct (String.eqb_spec x c) as [->|Hne].
      * rewrite Hc, andb_true_r.
        destruct (Nat.ltb_spec i (length pesos)) as [Hlt|Hge].
        -- rewrite (proj1 (IH (S i) _) (t + nth i pesos 0) Hc).
           ++ f_equal. f_equal. lia.
           ++ unfold add_peso. rewrite lookup_insert_eq, Hm. simpl.
              unfold GoInt.add. rewrite wrap_add_l. reflexivity.
        -- rewrite (proj1 (IH (S i) _) t Hc Hm).
           rewrite (nth_overflow pesos 0) by lia. reflexivity.
      * rewrite (proj1 (IH (S i) _) t Hc); [reflexivity|].
        destruct (Nat.ltb i (length pesos) && contains validas x); [|exact Hm].
        unfold add_peso. rewrite lookup_insert_ne by exact Hne. exact Hm.
    + intros Hc Hm. apply (proj2 (IH (S i) _) Hc).
      destruct (String.eqb_spec x c) as [->|Hne].
      * rewrite Hc, andb_false_r. exact Hm.
      * destruct (Nat.ltb i (length pesos) && contains validas x); [|exact Hm].
        unfold add_peso. rewrite lookup_insert_ne by exact Hne. exact Hm.
Qed.

Lemma totais_fold_lookup (validas : list string) (pesos : list Z) (c : string)
      (votos : list (list string)) :
  forall m : gmap string Z,
    (forall t, contains validas c = true -> m !! c = Some (GoInt.wrap t) ->
       foldl (fun resultados voto => apply_voto validas pesos 0 voto resultados)
             m votos !! c
       = Some (GoInt.wrap (t + weighted_total c pesos votos)))
    /\ (contains validas c = false -> m !! c = None ->
        foldl (fun resultados voto => apply_voto validas pesos 0 voto resultados)
              m votos !! c = None).
Proof.
  induction votos as [|voto rest IH]; intros m; simpl.
  - split; [|auto]. intros t _ Hm. rewrite Z.add_0_r. exact Hm.
  - destruct (apply_voto_lookup validas pesos c voto 0 m) as [Hin Hout].
    split.
    + intros t Hc Hm.
      rewrite (proj1 (IH _) (t + ballot_weight c pesos 0 voto) Hc (Hin t Hc Hm)).
      f_equal. f_equal. lia.
    + intros Hc Hm. apply (proj2 (IH _) Hc), Hout; assumption.
Qed.

(** The map when the loops are done: exactly the roster's names, each with
    the weighted total of its ranks, as an [int]. *)
Lemma totais_lookup (votos : list (list string)) (validas : list string)
      (pesos : list Z) (c : string) :
  totais votos validas pesos !! c
  = if contains validas c
    then Some (GoInt.wrap (weighted_total c pesos votos))
    else None.
Proof.
  unfold totais, zero_resultados.
  pose proof (zero_resultados_lookup validas c ∅) as Hz.
  destruct (totais_fold_lookup validas pesos c votos
              (foldl (fun resultados candidata => <[candidata := 0]> resultados)
                     ∅ validas)) as [Hin Hout].
  destruct (contains validas c) eqn:Hc.
  - rewrite (Hin 0 eq_refl); [reflexivity|]. rewrite Hz. reflexivity.
  - apply Hout; [reflexivity|]. rewrite Hz. apply lookup_empty.
Qed.

Lemma calcularTotais_entries (votos : list (list string)) (validas : list string)
      (pesos : list Z) (out : list Candidata) (cand : Candidata) :
  calcularTotais votos validas pesos out ->
  (In cand out <-> totais votos validas pesos !! Nome cand = Some (Votos cand)).
Proof.
  intros (lista & Hrange & Hperm & _). unfold ranged in Hrange.
  rewrite <- elem_of_map_to_list.
  assert (Hp : Permutation (map to_candidata
                              (map_to_list (totais votos validas pesos))) out).
  { etransitivity; eassumption. }
  split.
  - intros Hin. apply (Permutation_in _ (Permutation_sym Hp)) in Hin.
    apply in_map_iff in Hin as ([n v] & <- & Hin). simpl.
    apply list_elem_of_In. exact Hin.
  - intros Hin. apply (Permutation_in _ Hp). apply in_map_iff.
    exists (Nome cand, Votos cand). split; [destruct cand; reflexivity|].
    apply list_elem_of_In. exact Hin.
Qed.

(** *** The order of the returned list *)

Lemma insert_back_perm (x : Candidata) (l : list Candidata) :
  Permutation (x :: l) (insert_back x l).
Proof.
  induction l as [|y r IH]; simpl; [reflexivity|].
  destruct (less x y); [|reflexivity].
  rewrite perm_swap. constructor. exact IH.
Qed.

Lemma insert_back_sorted (x : Candidata) (l : list Candidata) :
  StronglySorted (fun a b => less a b = false) l ->
  StronglySorted (fun a b => less a b = false) (insert_back x l).
Proof.
  induction 1 as [|y r Hs IH Hy]; simpl.
  - repeat constructor.
  - destruct (less x y) eqn:Hxy.
    + constructor; [exact IH|].
      apply (Permutation_Forall (insert_back_perm x r)).
      constructor; [|exact Hy].
      unfold less in *. apply Z.ltb_lt in Hxy. apply Z.ltb_ge. lia.
    + constructor; [constructor; assumption|].
      constructor; [exact Hxy|].
      eapply Forall_impl; [exact Hy|]. simpl. intros z Hz.
      unfold less in *. apply Z.ltb_ge in Hxy, Hz. apply Z.ltb_ge. lia.
Qed.

Lemma insert_all_spec (lista : list Candidata) :
  forall acc : list Candidata,
    StronglySorted (fun a b => less a b = false) acc ->
    Permutation (lista ++ acc)
                (foldl (fun sorted_rev x => insert_back x sorted_rev) acc lista)
    /\ StronglySorted (fun a b => less a b = false)
         (foldl (fun sorted_rev x => insert_back x sorted_rev) acc lista).
Proof.
  induction lista as [|x rest IH]; intros acc Hacc; simpl; [auto|].
  destruct (IH (insert_back x acc) (insert_back_sorted x acc Hacc)) as [Hp Hs].
  split; [|exact Hs].
  rewrite <- Hp, <- insert_back_perm. apply Permutation_middle.
Qed.

Lemma sorted_rev (R : Candidata -> Candidata -> Prop) (l : list Candidata) :
  StronglySorted R l -> StronglySorted (fun a b => R b a) (rev l).
Proof.
  induction 1 as [|y r Hs IH Hy]; simpl; [constructor|].
  apply StronglySorted_app_2; [|exact IH|repeat constructor].
  intros a b Ha Hb. apply list_elem_of_singleton in Hb as ->.
  rewrite Forall_forall in Hy. apply Hy.
  apply list_elem_of_In, in_rev, list_elem_of_In. exact Ha.
Qed.

Lemma insertion_sort_spec (lista : list Candidata) :
  sort_Slice less lista (insertion_sort lista).
Proof.
  destruct (insert_all_spec lista [] (SSorted_nil _)) as [Hp Hs].
  rewrite app_nil_r in Hp. unfold sort_Slice, insertion_sort. split.
  - rewrite <- Permutation_rev. exact Hp.
  - exact (sorted_rev _ _ Hs).
Qed.

(** [calcularTotais] does return: the run that can be computed is one of
    the lists it may give back. *)
Lemma calcularTotais_run_returns
      (votos : list (list string)) (validas : list string) (pesos : list Z) :
  calcularTotais votos validas pesos (calcularTotais_run votos validas pesos).
Proof.
  exists (map to_candidata (map_to_list (totais votos validas pesos))).
  split; [apply Permutation_refl | apply insertion_sort_spec].
Qed.




Lemma sorted_lookup (R : Candidata -> Candidata -> Prop) (l : list Candidata) :
  StronglySorted R l ->
  forall (i j : nat) (a b : Candidata),
    (i < j)%nat -> l !! i = Some a -> l !! j = Some b -> R a b.
Proof.
  induction 1 as [|y r Hs IH Hy]; intros i j a b Hij Hi Hj; [discriminate|].
  destruct j as [|j]; [lia|]. simpl in Hj.
  destruct i as [|i]; simpl in Hi.
  - injection Hi as ->. rewrite Forall_lookup in Hy. exact (Hy j b Hj).
  - apply (IH i j a b); [lia|assumption|assumption].
Qed.

End TallyingFacts.

Section RankingFacts.

Import Tallying Ranking.

(** C9, as the code has it.  The list [calcularTotais] returns never
    rises: an entry's total is at most the total of every entry before it.
    The comparison given to [sort.Slice] looks at the totals alone. *)
Theorem ranking_never_rises
  (votos : list (list string)) (validas : list string) (pesos : list Z)
  (out : list Candidata) :
  calcularTotais votos validas pesos out ->
  forall (i j : nat) (a b : Candidata),
    (i < j)%nat -> out !! i = Some a -> out !! j = Some b ->
    Votos b <= Votos a.
Proof.
  intros (lista & _ & _ & Hsorted) i j a b Hij Hi Hj.
  pose proof (sorted_lookup _ _ Hsorted i j a b Hij Hi Hj) as Hless.
  unfold less in Hless. apply Z.ltb_ge in Hless. exact Hless.
Qed.

Lemma ranking_never_rises_witness :
  let votos := [["A"; "B"; "C"]; ["B"; "A"; "C"]; ["A"; "B"; "C"]] in
  let out := calcularTotais_run votos ["A"; "B"; "C"] [3; 2; 1] in
  calcularTotais votos ["A"; "B"; "C"] [3; 2; 1] out
  /\ out !! 0%nat = Some (mkCandidata "A" 8)
  /\ out !! 2%nat = Some (mkCandidata "C" 3)
  /\ 3 <= 8.
Proof.
  intros votos out.
  pose proof (calcularTotais_run_returns votos ["A"; "B"; "C"] [3; 2; 1]) as Hrun.
  split; [exact Hrun|]. split; [reflexivity|]. split; [reflexivity|].
  exact (ranking_never_rises votos ["A"; "B"; "C"] [3; 2; 1] out Hrun
           0%nat 2%nat (mkCandidata "A" 8) (mkCandidata "C" 3)
           (le_S _ _ (le_n _)) eq_refl eq_refl).
Defined.

Lemma tie_in_either_order :
  calcularTotais [] ["A"; "B"] [] [mkCandidata "A" 0; mkCandidata "B" 0]
  /\ calcularTotais [] ["A"; "B"] [] [mkCandidata "B" 0; mkCandidata "A" 0].
Proof.
  assert (Hm : map to_candidata (map_to_list (totais [] ["A"; "B"] []))
               = [mkCandidata "A" 0; mkCandidata "B" 0]) by (vm_compute; reflexivity).
  split.
  - exists [mkCandidata "A" 0; mkCandidata "B" 0]. unfold ranged. rewrite Hm.
    split; [reflexivity|]. split; [reflexivity|].
    repeat constructor.
  - exists [mkCandidata "B" 0; mkCandidata "A" 0]. unfold ranged. rewrite Hm.
    split; [apply perm_swap|]. split; [reflexivity|].
    repeat constructor.
Qed.

(** C9 does not hold of the code as stated.  With the roster A, B and no
    ballot both totals are 0, so the list cannot descend strictly; and
    [B, A] is one of the lists the function may return, against the order of
    the identifiers. *)
Lemma ties_are_not_broken :
  ~ (forall out,
       calcularTotais [] ["A"; "B"] [] out -> ranked_with_tie_break out).
Proof.
  intros H.
  specialize (H _ (proj2 tie_in_either_order) 0%nat 1%nat
                (mkCandidata "B" 0) (mkCandidata "A" 0)
                (le_n _) eq_refl eq_refl).
  simpl in H. destruct H as [H | [_ H]]; [lia | discriminate H].
Qed.

End RankingFacts.

(** ** The Solidity contracts: which ballots [vote] takes *)

Section VoteFacts.

Import BallotRules Inputs.

(** C8, as the contracts have it.  [vote] in stvVote.sol and in
    STVContract.sol reverts on every preference list whose length is not
    the number of candidates, shorter lists included, and on every call by
    a sender who has voted.  A duplicate-free list of known candidates of
    exactly that length, from a sender who has not voted, is taken: it is
    stored as the sender's ballot and [totalVotes] grows by one. *)
Theorem vote_takes_full_rankings_only (sender : N) (prefs : list N) :
  (forall s : STVVote.storage,
     (length prefs <> length (STVVote.candidates s) ->
      exists reason, STVVote.vote s sender prefs = Reverted reason)
     /\ (STVVote.voted (STVVote.ballot_at s sender) = true ->
         exists reason, STVVote.vote s sender prefs = Reverted reason)
     /\ (STVVote.voted (STVVote.ballot_at s sender) = false ->
         length prefs = length (STVVote.candidates s) ->
         List.NoDup prefs -> Forall (known (length (STVVote.candidates s))) prefs ->
         (STVVote.totalVotes s < Uint.max)%N ->
         exists s',
           STVVote.vote s sender prefs = Success s'
           /\ STVVote.ballot_at s' sender = STVVote.mkBallot sender prefs true
           /\ STVVote.totalVotes s' = (STVVote.totalVotes s + 1)%N
           /\ STVVote.candidates s' = STVVote.candidates s))
  /\
  (forall s : STVContract.storage,
     (length prefs <> length (STVContract.candidates s) ->
      exists reason, STVContract.vote s sender prefs = Reverted reason)
     /\ (STVContract.voted (STVContract.voter_at s sender) = true ->
         exists reason, STVContract.vote s sender prefs = Reverted reason)
     /\ (STVContract.voted (STVContract.voter_at s sender) = false ->
         length prefs = length (STVContract.candidates s) ->
         List.NoDup prefs ->
         Forall (known (length (STVContract.candidates s))) prefs ->
         (STVContract.totalVotes s < Uint.max)%N ->
         exists s',
           STVContract.vote s sender prefs = Success s'
           /\ STVContract.voter_at s' sender = STVContract.mkVoter true prefs
           /\ STVContract.totalVotes s' = (STVContract.totalVotes s + 1)%N
           /\ STVContract.candidates s' = STVContract.candidates s)).
Proof.
  split; intros s; (split; [|split]).
  - intros Hlen. unfold STVVote.vote.
    destruct (STVVote.voted _); [eauto|].
    destruct (Nat.eqb_spec (length prefs) (length (STVVote.candidates s)));
      [contradiction|]. simpl. eauto.
  - intros Hv. unfold STVVote.vote. rewrite Hv. eauto.
  - intros Hv Hlen _ _ Htot. unfold STVVote.vote, Uint.add. rewrite Hv, Hlen.
    rewrite Nat.eqb_refl. simpl.
    destruct (N.leb_spec (STVVote.totalVotes s + 1) Uint.max) as [_|Hgt]; [|lia].
    eexists. split; [reflexivity|]. repeat split.
    unfold STVVote.ballot_at. simpl. rewrite lookup_insert_eq. reflexivity.
  - intros Hlen. unfold STVContract.vote.
    destruct (STVContract.voted _); [eauto|].
    destruct (Nat.eqb_spec (length prefs) (length (STVContract.candidates s)));
      [contradiction|]. simpl. eauto.
  - intros Hv. unfold STVContract.vote. rewrite Hv. eauto.
  - intros Hv Hlen _ _ Htot. unfold STVContract.vote, Uint.add. rewrite Hv, Hlen.
    rewrite Nat.eqb_refl. simpl.
    destruct (N.leb_spec (STVContract.totalVotes s + 1) Uint.max) as [_|Hgt]; [|lia].
    eexists. split; [reflexivity|]. repeat split.
    unfold STVContract.voter_at. simpl. rewrite lookup_insert_eq. reflexivity.
Qed.

Lemma vote_takes_full_rankings_only_witness :
  (exists reason, STVVote.vote fresh_STVVote 8 [0%N] = Reverted reason)
  /\ (exists s', STVVote.vote fresh_STVVote 8 [0%N; 1%N; 2%N] = Success s'
                 /\ STVVote.totalVotes s' = 1%N)
  /\ (exists reason, STVContract.vote fresh_STVContract 8 [0%N] = Reverted reason)
  /\ (exists s', STVContract.vote fresh_STVContract 8 [0%N; 1%N; 2%N] = Success s'
                 /\ STVContract.totalVotes s' = 1%N).
Proof.
  assert (Hnodup : List.NoDup [0%N; 1%N; 2%N]).
  { repeat constructor; simpl; intuition discriminate. }
  assert (Hknown : Forall (known 3) [0%N; 1%N; 2%N]).
  { repeat constructor; unfold known; simpl; lia. }
  split; [|split; [|split]].
  - apply (proj1 (proj1 (vote_takes_full_rankings_only 8 [0%N]) fresh_STVVote)).
    simpl. lia.
  - destruct (proj2 (proj2 (proj1 (vote_takes_full_rankings_only 8 [0%N; 1%N; 2%N])
                              fresh_STVVote)))
      as (s' & Hs & _ & Ht & _);
      [reflexivity | reflexivity | exact Hnodup | exact Hknown
       | unfold Uint.max; simpl; lia |].
    exists s'. split; [exact Hs | exact Ht].
  - apply (proj1 (proj2 (vote_takes_full_rankings_only 8 [0%N]) fresh_STVContract)).
    simpl. lia.
  - destruct (proj2 (proj2 (proj2 (vote_takes_full_rankings_only 8 [0%N; 1%N; 2%N])
                              fresh_STVContract)))
      as (s' & Hs & _ & Ht & _);
      [reflexivity | reflexivity | exact Hnodup | exact Hknown
       | unfold Uint.max; simpl; lia |].
    exists s'. split; [exact Hs | exact Ht].
Defined.

(** C8 does not hold of the code as stated.  With three candidates, the
    list [0] is non-empty, duplicate-free, names a known candidate and is
    shorter than the roster, and both contracts reject it. *)
Lemma short_ballot_is_rejected :
  ~ STVVote_rejects_exactly fresh_STVVote 8 [0%N]
  /\ ~ STVContract_rejects_exactly fresh_STVContract 8 [0%N].
Proof.
  assert (Hok : ~ must_reject 3 [0%N]).
  { intros [H | [H | [(p & Hin & Hk) | H]]].
    - discriminate H.
    - simpl in H. lia.
    - destruct Hin as [<- | []]. apply Hk. unfold known. simpl. lia.
    - apply H. repeat constructor. simpl. tauto. }
  split; intros [Hrej _]; apply Hok, Hrej; eexists; reflexivity.
Qed.

End VoteFacts.

(** ** Further properties of the code *)

Section FurtherFacts.

Import Chaincode CountSpec Tallying.

(** The quota of the chaincode is one less than the Droop quota, for every
    vote count and seat count an [int] holds with at least one seat. *)
Theorem CountVotes_quota_is_droop_less_one (V seats : Z) :
  0 <= V <= GoInt.int_max -> 1 <= seats < GoInt.int_max ->
  Chaincode.quota_of V seats = Some (droop_quota V seats - 1).
Proof.
  intros HV Hs. rewrite Chaincode_quota_is_quotient by assumption.
  unfold droop_quota. f_equal. lia.
Qed.

Lemma CountVotes_quota_is_droop_less_one_witness :
  Chaincode.quota_of 4 1 = Some (droop_quota 4 1 - 1).
Proof.
  apply CountVotes_quota_is_droop_less_one; unfold GoInt.int_max; lia.
Defined.

Lemma STVVote_quota_is_droop_witness :
  STVVote.quota_of 4 1 = Some (Z.to_N (droop_quota 4 1)).
Proof.
  apply (STVVote_quota_is_droop 4 1); unfold Uint.max; simpl; lia.
Defined.

(** [calcularTotais] returns on every input. *)
Theorem calcularTotais_always_returns
  (votos : list (list string)) (validas : list string) (pesos : list Z) :
  exists out, calcularTotais votos validas pesos out.
Proof. eexists. apply calcularTotais_run_returns. Qed.

(** The election pass never gives a seat back: [seatsRemaining] goes down
    by the number of candidates at or above the quota. *)
Theorem seats_remaining_never_rises
  (quota : Z) (cands : list Candidate) (sr : Z) :
  GoInt.in_range sr -> GoInt.int_min <= sr - Z.of_nat (length cands) ->
  snd (elect quota cands sr) = sr - elected_count quota cands
  /\ snd (elect quota cands sr) <= sr.
Proof.
  intros Hsr Hlow. rewrite elect_snd by exact Hsr.
  pose proof (elected_count_bounds quota cands) as Hk.
  rewrite wrap_id; [lia|].
  unfold GoInt.in_range, GoInt.int_min, GoInt.int_max in *. lia.
Qed.

Lemma seats_remaining_never_rises_witness :
  snd (elect 1 [mkCandidate "A" 1; mkCandidate "B" 1] 1) = 1 - 2
  /\ snd (elect 1 [mkCandidate "A" 1; mkCandidate "B" 1] 1) <= 1.
Proof.
  apply (seats_remaining_never_rises 1 [mkCandidate "A" 1; mkCandidate "B" 1] 1);
    unfold GoInt.in_range, GoInt.int_min, GoInt.int_max; simpl; lia.
Defined.

(** [CastVote] keeps [TotalVotes] equal to the number of ballots. *)
Theorem CastVote_keeps_the_count
  (w w' : world) (e : Election) (voter : string) (preferences : list Z) :
  w !! key = Some e ->
  TotalVotes e = Z.of_nat (length (Ballots e)) ->
  Z.of_nat (length (Ballots e)) < GoInt.int_max ->
  CastVote w voter preferences = (None, w') ->
  exists e', w' !! key = Some e'
             /\ TotalVotes e' = Z.of_nat (length (Ballots e')).
Proof.
  intros Hw Htot Hlen Hcast. unfold CastVote in Hcast. rewrite Hw in Hcast.
  destruct (has_voted (Ballots e) voter); [discriminate|].
  injection Hcast as <-. eexists. split; [apply lookup_insert_eq|].
  simpl. rewrite length_app. simpl. rewrite Htot.
  rewrite add_small; [lia|].
  unfold GoInt.in_range, GoInt.int_min, GoInt.int_max in *. lia.
Qed.

Lemma CastVote_keeps_the_count_witness :
  exists e', snd (CastVote {[ key := Inputs.no_votes ]} "voter123" [0]) !! key = Some e'
             /\ TotalVotes e' = Z.of_nat (length (Ballots e')).
Proof.
  apply (CastVote_keeps_the_count {[ key := Inputs.no_votes ]} _ Inputs.no_votes
           "voter123" [0]).
  - reflexivity.
  - reflexivity.
  - unfold GoInt.int_max. simpl. lia.
  - reflexivity.
Defined.

End FurtherFacts.

(** ** The chaincode: the ledger entry points *)

Section LedgerFacts.

Import Chaincode CountSpec Invariants.

(** Without a stored election [CastVote], [CountVotes] and
    [GetElectionResults] all report that the election does not exist, and
    the first two write nothing. *)
Theorem no_election_no_service
  (w : world) (voter : string) (preferences : list Z) (fuel : nat) :
  w !! key = None ->
  CastVote w voter preferences = (Some "election does not exist", w)
  /\ CountVotes fuel w = Returns (Some "election does not exist", w)
  /\ GetElectionResults w = (None, Some "election does not exist").
Proof.
  intros Hw. unfold CastVote, CountVotes, GetElectionResults. rewrite Hw.
  repeat split.
Qed.

Lemma no_election_no_service_witness :
  CastVote ∅ "voter123" [0; 1; 2] = (Some "election does not exist", ∅)
  /\ CountVotes 3 ∅ = Returns (Some "election does not exist", ∅)
  /\ GetElectionResults ∅ = (None, Some "election does not exist").
Proof. apply no_election_no_service. apply lookup_empty. Defined.

(** The duplicate-vote scenario of tests/duplicate-vote-t.yml: once a
    voter's [CastVote] has succeeded, every further [CastVote] under the
    identifier as it was stored, with whatever preferences, returns an
    error and leaves the world state as the first vote left it.  For an
    identifier that is valid UTF-8 that is the voter's own identifier. *)
Theorem second_vote_is_refused
  (w w' : world) (voter : string) (preferences again : list Z) :
  CastVote w voter preferences = (None, w') ->
  CastVote w' (GoJSON.json_string voter) again
  = (Some "voter has already voted", w')
  /\ (GoJSON.valid_utf8 voter = true ->
      CastVote w' voter again = (Some "voter has already voted", w')).
Proof.
  intros Hfirst.
  assert (Hstored : CastVote w' (GoJSON.json_string voter) again
                    = (Some "voter has already voted", w')).
  { unfold CastVote in *.
    destruct (w !! key) as [e|]; [|discriminate].
    destruct (has_voted (Ballots e) voter); [discriminate|].
    injection Hfirst as <-. rewrite lookup_insert_eq. simpl.
    assert (Hv : has_voted
                   (Ballots e
                    ++ [mkBallot (GoJSON.json_string voter) preferences true])
                   (GoJSON.json_string voter) = true).
    { apply has_voted_true.
      exists (mkBallot (GoJSON.json_string voter) preferences true).
      split; [apply in_or_app; right; left; reflexivity | reflexivity]. }
    rewrite Hv. reflexivity. }
  split; [exact Hstored|].
  intros Hvalid. rewrite (json_string_valid voter Hvalid) in Hstored.
  exact Hstored.
Qed.

Lemma second_vote_is_refused_witness :
  let w : world := {[ key := Inputs.no_votes ]} in
  let w' := snd (CastVote w "voter123" [0]) in
  CastVote w' "voter123" [0] = (Some "voter has already voted", w').
Proof.
  intros w w'.
  apply (proj2 (second_vote_is_refused w w' "voter123" [0] [0] eq_refl)).
  reflexivity.
Defined.

(** For a voter identifier that is valid UTF-8, [CastVote] keeps the
    voters of the stored ballots distinct. *)
Theorem CastVote_keeps_voters_distinct
  (w w' : world) (e : Election) (voter : string) (preferences : list Z) :
  GoJSON.valid_utf8 voter = true ->
  w !! key = Some e -> distinct_voters e ->
  CastVote w voter preferences = (None, w') ->
  exists e', w' !! key = Some e' /\ distinct_voters e'
             /\ In voter (map Voter (Ballots e')).
Proof.
  intros Hvalid Hw Hnd Hcast. unfold CastVote in Hcast. rewrite Hw in Hcast.
  destruct (has_voted (Ballots e) voter) eqn:Hv; [discriminate|].
  rewrite (json_string_valid voter Hvalid) in Hcast.
  injection Hcast as <-. eexists. split; [apply lookup_insert_eq|].
  unfold distinct_voters in *. simpl. rewrite map_app. simpl. split.
  - apply NoDup_app. split; [exact Hnd|]. split; [|apply NoDup_singleton].
    intros x Hx Hx'. apply list_elem_of_singleton in Hx'. subst x.
    apply list_elem_of_In, in_map_iff in Hx as (b & Hb & Hin).
    assert (Ht : has_voted (Ballots e) voter = true).
    { apply has_voted_true. exists b. auto. }
    congruence.
  - apply in_or_app. right. left. reflexivity.
Qed.

Lemma CastVote_keeps_voters_distinct_witness :
  let w : world := {[ key := Inputs.scenario ]} in
  exists e', snd (CastVote w "v5" [1; 2; 0]) !! key = Some e'
             /\ distinct_voters e' /\ In "v5" (map Voter (Ballots e')).
Proof.
  intros w.
  apply (CastVote_keeps_voters_distinct w _ Inputs.scenario "v5" [1; 2; 0]).
  - reflexivity.
  - reflexivity.
  - unfold distinct_voters. apply NoDup_ListNoDup. simpl.
    repeat constructor; simpl; intuition discriminate.
  - reflexivity.
Defined.

End LedgerFacts.

(** ** The chaincode: from [InitElection] to [CountVotes] *)

Section ReachableFacts.

Import Chaincode CountSpec Invariants.

(** [InitElection] replaces whatever was stored by an election with the
    given names in order, as JSON stores them (a name that is valid UTF-8
    unchanged), every count 0, no ballot and no vote, which
    [GetElectionResults] gives back; other keys are untouched.  Every
    stored name is valid UTF-8.  With at least one name and one seat the
    stored election is well-formed. *)
Theorem InitElection_starts_afresh
  (w : world) (candidateNames : list string) (seats : Z) :
  let stored :=
    map (fun n => mkCandidate (GoJSON.json_string n) 0) candidateNames in
  let w' := snd (InitElection w candidateNames seats) in
  fst (InitElection w candidateNames seats) = None
  /\ w' !! key = Some (mkElection stored seats 0 [])
  /\ GetElectionResults w' = (Some stored, None)
  /\ (forall k, k <> key -> w' !! k = w !! k)
  /\ (Forall (fun n => GoJSON.valid_utf8 n = true) candidateNames ->
      stored = map (fun n => mkCandidate n 0) candidateNames)
  /\ Forall (fun c => GoJSON.valid_utf8 (Name c) = true) stored
  /\ (1 <= seats <= GoInt.int_max ->
      (1 <= length candidateNames)%nat ->
      Z.of_nat (length candidateNames) <= 2 ^ 62 ->
      valid_election (mkElection stored seats 0 [])).
Proof.
  simpl. split; [reflexivity|]. split; [apply lookup_insert_eq|].
  split; [unfold GetElectionResults; rewrite lookup_insert_eq; reflexivity|].
  split; [intros k Hk; apply lookup_insert_ne; congruence|].
  split; [|split].
  - intros Hvalid. apply map_ext_in. intros n Hn.
    rewrite Forall_forall in Hvalid.
    rewrite json_string_valid; [reflexivity|].
    apply Hvalid, list_elem_of_In, Hn.
  - rewrite Forall_map. apply Forall_forall. intros n _. simpl.
    apply json_string_is_valid.
  - intros Hs Hn1 Hn2. unfold valid_election. simpl. rewrite length_map.
    repeat split; try lia.
    rewrite Forall_map. apply Forall_forall. intros n _. simpl. lia.
Qed.

Lemma InitElection_starts_afresh_witness :
  map (fun n => mkCandidate (GoJSON.json_string n) 0) ["Alice"; "Bob"; "Charlie"]
  = [mkCandidate "Alice" 0; mkCandidate "Bob" 0; mkCandidate "Charlie" 0]
  /\ valid_election
       (mkElection
          (map (fun n => mkCandidate (GoJSON.json_string n) 0)
               ["Alice"; "Bob"; "Charlie"]) 2 0 []).
Proof.
  destruct (InitElection_starts_afresh ∅ ["Alice"; "Bob"; "Charlie"] 2)
    as (_ & _ & _ & _ & Hsame & _ & Hvalid).
  split.
  - apply Hsame. repeat constructor.
  - apply Hvalid; unfold GoInt.int_max; simpl; lia.
Defined.

(** A [CastVote] that succeeds with a ballot whose first preference names a
    candidate keeps the stored election well-formed. *)
Theorem CastVote_keeps_election_valid
  (w w' : world) (e : Election) (voter : string) (preferences : list Z) :
  w !! key = Some e -> valid_election e ->
  valid_first (length (Candidates e)) (mkBallot voter preferences true) = true ->
  Z.of_nat (length (Ballots e)) + 1 < 2 ^ 62 ->
  CastVote w voter preferences = (None, w') ->
  exists e', w' !! key = Some e' /\ valid_election e'.
Proof.
  intros Hw (Hs & Hm1 & Hm2 & Htot & Hn & Hvalid & Hcounts) Hb Hroom Hcast.
  unfold CastVote in Hcast. rewrite Hw in Hcast.
  destruct (has_voted (Ballots e) voter); [discriminate|].
  injection Hcast as <-. eexists. split; [apply lookup_insert_eq|].
  unfold valid_election. simpl. rewrite length_app. simpl.
  repeat split; try lia; try assumption.
  - rewrite Htot, add_small; [lia|].
    unfold GoInt.in_range, GoInt.int_min, GoInt.int_max. lia.
  - rewrite forallb_app, Hvalid. simpl.
    unfold valid_first in *. simpl in *. rewrite Hb. reflexivity.
Qed.

Lemma CastVote_keeps_election_valid_witness :
  let w : world := {[ key := Inputs.scenario ]} in
  exists e', snd (CastVote w "v5" [1; 2; 0]) !! key = Some e' /\ valid_election e'.
Proof.
  intros w.
  apply (CastVote_keeps_election_valid w _ Inputs.scenario "v5" [1; 2; 0]).
  - reflexivity.
  - unfold valid_election, GoInt.int_max. simpl.
    repeat split; try lia; try reflexivity.
    repeat constructor; simpl; lia.
  - reflexivity.
  - simpl. lia.
  - reflexivity.
Defined.

Lemma incr_vote_length (cands cands' : list Candidate) (p : Z) :
  incr_vote cands p = Some cands' ->
  length cands' = length cands /\ map Name cands' = map Name cands
  /\ 0 <= p < Z.of_nat (length cands).
Proof.
  unfold incr_vote. destruct (Z.ltb_spec p 0) as [|Hp]; [discriminate|].
  destruct (cands !! Z.to_nat p) as [c|] eqn:Hc; [|discriminate].
  intros H. injection H as <-. split; [apply length_insert|]. split.
  - rewrite list_fmap_insert. simpl. apply list_insert_id.
    rewrite list_lookup_fmap, Hc. reflexivity.
  - apply lookup_lt_Some in Hc. lia.
Qed.

Lemma incr_vote_none (cands : list Candidate) (p : Z) :
  incr_vote cands p = None -> ~ (0 <= p < Z.of_nat (length cands)).
Proof.
  intros Hnone Hp. destruct (incr_vote_valid cands p Hp) as (c & _ & Hsome).
  congruence.
Qed.

Lemma count_ballots_length (ballots : list Ballot) :
  forall cands counted : list Candidate,
    count_ballots cands ballots = Some counted ->
    length counted = length cands /\ map Name counted = map Name cands.
Proof.
  induction ballots as [|b rest IH]; intros cands counted; simpl.
  - intros H. injection H as <-. auto.
  - destruct (Preferences b) as [|p ps]; [discriminate|].
    destruct (incr_vote cands p) as [cands'|] eqn:Hi; [|discriminate].
    intros Hc. apply incr_vote_length in Hi as (Hl & Hn & _).
    destruct (IH cands' counted Hc) as [Hl' Hn']. split; congruence.
Qed.

(** The counting pass panics exactly when some ballot has no first
    preference, or one that is not the index of a candidate. *)
Lemma count_ballots_panics (ballots : list Ballot) :
  forall cands : list Candidate,
    count_ballots cands ballots = None
    <-> forallb (valid_first (length cands)) ballots = false.
Proof.
  induction ballots as [|b rest IH]; intros cands; simpl.
  - split; discriminate.
  - unfold valid_first at 1.
    destruct (Preferences b) as [|p ps]; [simpl; tauto|].
    destruct (incr_vote cands p) as [cands'|] eqn:Hi.
    + apply incr_vote_length in Hi as (Hl & _ & Hp).
      rewrite IH, Hl.
      destruct (Z.leb_spec 0 p); [|lia].
      destruct (Z.ltb_spec p (Z.of_nat (length cands))); [|lia].
      reflexivity.
    + apply incr_vote_none in Hi. split; [|reflexivity]. intros _.
      destruct (Z.leb_spec 0 p); [|reflexivity].
      destruct (Z.ltb_spec p (Z.of_nat (length cands))); [lia|reflexivity].
Qed.

Lemma elect_length (quota : Z) (cands : list Candidate) (sr : Z) :
  length (fst (elect quota cands sr)) = length cands
  /\ map Name (fst (elect quota cands sr)) = map Name cands.
Proof.
  rewrite elect_fst. split; [apply length_map|].
  rewrite map_map. apply map_ext. intros c. unfold reset_elected.
  destruct (quota <=? VoteCount c); reflexivity.
Qed.

Lemma round_length (quota : Z) (ballots : list Ballot)
      (st st' : list Candidate * Z) :
  round quota ballots st = Some st' ->
  length (fst st') = length (fst st) /\ map Name (fst st') = map Name (fst st).
Proof.
  unfold round. destruct (count_ballots (fst st) ballots) as [counted|] eqn:Hc;
    [|discriminate].
  intros H. injection H as <-.
  destruct (count_ballots_length _ _ _ Hc) as [Hl Hn].
  destruct (elect_length quota counted (snd st)) as [Hl' Hn'].
  split; congruence.
Qed.

Lemma count_loop_never_panics (fuel : nat) (quota : Z) (ballots : list Ballot) :
  forall st : list Candidate * Z,
    forallb (valid_first (length (fst st))) ballots = true ->
    count_loop fuel quota ballots st <> Panics.
Proof.
  induction fuel as [|fuel IH]; intros st Hv; simpl.
  - destruct (0 <? snd st); discriminate.
  - destruct (0 <? snd st); [|discriminate].
    destruct (round quota ballots st) as [st'|] eqn:Hr.
    + apply IH. destruct (round_length _ _ _ _ Hr) as [Hl _].
      rewrite Hl. exact Hv.
    + unfold round in Hr.
      destruct (count_ballots (fst st) ballots) eqn:Hc; [discriminate|].
      apply count_ballots_panics in Hc. congruence.
Qed.

(** With a seat to fill, [CountVotes] panics exactly when some stored
    ballot has no first preference or one that is not a candidate index;
    the panic comes in the first counting pass and nothing is written.
    [CastVote] stores any preferences, so such ballots can be on the
    ledger. *)
Theorem CountVotes_panics_on_unreadable_ballot (e : Election) (fuel : nat) :
  0 < Seats e <= GoInt.int_max ->
  (tally (S fuel) e = Panics
   <-> forallb (valid_first (length (Candidates e))) (Ballots e) = false)
  /\ (forallb (valid_first (length (Candidates e))) (Ballots e) = false ->
      forall w : world, w !! key = Some e -> CountVotes (S fuel) w = Panics).
Proof.
  intros Hs.
  assert (Hq : exists q, quota_of (TotalVotes e) (Seats e) = Some q).
  { unfold quota_of.
    destruct (Z.eqb_spec (GoInt.add (Seats e) 1) 0) as [E|E]; [|eauto].
    exfalso. unfold GoInt.add, GoInt.wrap, GoInt.int_min, GoInt.int_max in *.
    destruct (Z.eq_dec (Seats e) (2 ^ 63 - 1)) as [Hmax|Hne].
    - rewrite Hmax in E. vm_compute in E. discriminate E.
    - rewrite Z.mod_small in E; lia. }
  destruct Hq as [q Hq].
  assert (Hpanic : forallb (valid_first (length (Candidates e))) (Ballots e) = false
                   -> tally (S fuel) e = Panics).
  { intros Hbad. unfold tally. rewrite Hq. cbn [count_loop]. simpl snd.
    destruct (Z.ltb_spec 0 (Seats e)); [|lia].
    unfold round. simpl fst.
    apply count_ballots_panics in Hbad. rewrite Hbad. reflexivity. }
  split; [split; [|exact Hpanic]|].
  - intros Hp. destruct (forallb _ (Ballots e)) eqn:Hv; [|reflexivity].
    exfalso. unfold tally in Hp. rewrite Hq in Hp.
    exact (count_loop_never_panics _ _ _ (Candidates e, Seats e) Hv Hp).
  - intros Hbad w Hw. unfold CountVotes. rewrite Hw, (Hpanic Hbad). reflexivity.
Qed.

Lemma CountVotes_panics_on_unreadable_ballot_witness :
  let e := mkElection [mkCandidate "A" 0] 1 1 [mkBallot "v1" [] true] in
  fst (CastVote {[ key := Inputs.no_votes ]} "v1" []) = None
  /\ tally 1 e = Panics
  /\ CountVotes 1 {[ key := e ]} = Panics.
Proof.
  intros e. split; [reflexivity|].
  destruct (CountVotes_panics_on_unreadable_ballot e 0) as [Hiff Hw].
  - unfold GoInt.int_max. simpl. lia.
  - split; [apply Hiff; reflexivity|].
    apply Hw; reflexivity.
Defined.

End ReachableFacts.

(** ** The chaincode: what [CountVotes] leaves on the ledger *)

Section StoredResultFacts.

Import Chaincode CountSpec Invariants.

(** Seat counts that leave nothing to fill.  With [Seats = -1] the quota
    divides by zero and [CountVotes] panics.  With any other [Seats <= 0]
    the loop is not entered: [CountVotes] returns no error and the stored
    election is the one it read. *)
Theorem CountVotes_without_seats (e : Election) (fuel : nat) (w : world) :
  w !! key = Some e ->
  (Seats e = -1 -> CountVotes fuel w = Panics)
  /\ (GoInt.int_min <= Seats e <= 0 -> Seats e <> -1 ->
      tally fuel e = Returns (Candidates e, Seats e)
      /\ CountVotes fuel w = Returns (None, w)).
Proof.
  intros Hw. split.
  - intros Hs. unfold CountVotes, tally, quota_of. rewrite Hw, Hs. reflexivity.
  - intros Hs Hne.
    assert (Ht : tally fuel e = Returns (Candidates e, Seats e)).
    { unfold tally, quota_of.
      rewrite add_small
        by (unfold GoInt.in_range, GoInt.int_min, GoInt.int_max in *; lia).
      destruct (Z.eqb_spec (Seats e + 1) 0); [lia|].
      apply count_loop_done. simpl. lia. }
    split; [exact Ht|]. unfold CountVotes. rewrite Hw, Ht.
    destruct e as [cands seats total ballots]. simpl.
    rewrite insert_id by exact Hw. reflexivity.
Qed.

Lemma CountVotes_without_seats_witness :
  let e := mkElection [mkCandidate "A" 0] 0 1 [mkBallot "v1" [0] true] in
  let e' := mkElection [mkCandidate "A" 0] (-1) 1 [mkBallot "v1" [0] true] in
  CountVotes 5 {[ key := e ]} = Returns (None, {[ key := e ]})
  /\ CountVotes 5 {[ key := e' ]} = Panics.
Proof.
  intros e e'. split.
  - destruct (CountVotes_without_seats e 5 {[ key := e ]}) as [_ H];
      [reflexivity|].
    apply H; unfold GoInt.int_min; simpl; lia.
  - destruct (CountVotes_without_seats e' 5 {[ key := e' ]}) as [H _];
      [reflexivity|].
    apply H. reflexivity.
Defined.

Lemma count_loop_names (fuel : nat) (quota : Z) (ballots : list Ballot) :
  forall st st' : list Candidate * Z,
    count_loop fuel quota ballots st = Returns st' ->
    map Name (fst st') = map Name (fst st).
Proof.
  induction fuel as [|fuel IH]; intros st st'; simpl.
  - destruct (0 <? snd st); [discriminate|]. intros H. injection H as <-.
    reflexivity.
  - destruct (0 <? snd st).
    + destruct (round quota ballots st) as [st1|] eqn:Hr; [|discriminate].
      intros Hl. rewrite (IH _ _ Hl). apply (round_length _ _ _ _ Hr).
    + intros H. injection H as <-. reflexivity.
Qed.

(** Whenever [CountVotes] returns on a stored election it returns no
    error, and the election it stores has the same candidate names in the
    same order, the same seats, the same [TotalVotes] and the same ballots:
    only the vote counts change.  No other key is written. *)
Theorem CountVotes_changes_counts_only
  (w w' : world) (e : Election) (fuel : nat) (err : option string) :
  w !! key = Some e ->
  CountVotes fuel w = Returns (err, w') ->
  err = None
  /\ exists e', w' !! key = Some e'
       /\ map Name (Candidates e') = map Name (Candidates e)
       /\ Seats e' = Seats e /\ TotalVotes e' = TotalVotes e
       /\ Ballots e' = Ballots e
       /\ forall k, k <> key -> w' !! k = w !! k.
Proof.
  intros Hw Hc. unfold CountVotes in Hc. rewrite Hw in Hc.
  destruct (tally fuel e) as [[cands sr]| |] eqn:Ht; try discriminate.
  injection Hc as <- <-. split; [reflexivity|].
  eexists. split; [apply lookup_insert_eq|]. simpl.
  split; [|repeat split].
  - unfold tally in Ht.
    destruct (quota_of (TotalVotes e) (Seats e)) as [q|]; [|discriminate].
    exact (count_loop_names _ _ _ _ _ Ht).
  - intros k Hk. apply lookup_insert_ne. congruence.
Qed.

Lemma CountVotes_changes_counts_only_witness :
  exists e', snd (match CountVotes 1 {[ key := Inputs.scenario ]} with
                  | Returns r => r
                  | _ => (None, ∅)
                  end) !! key = Some e'
             /\ map Name (Candidates e') = ["A"; "B"; "C"]
             /\ Ballots e' = Ballots Inputs.scenario.
Proof.
  destruct (CountVotes_changes_counts_only {[ key := Inputs.scenario ]}
              (snd (match CountVotes 1 {[ key := Inputs.scenario ]} with
                    | Returns r => r
                    | _ => (None, ∅)
                    end))
              Inputs.scenario 1 None)
    as (_ & e' & He' & Hn & _ & _ & Hb & _); [reflexivity | reflexivity |].
  exists e'. split; [exact He'|]. split; [exact Hn | exact Hb].
Defined.

Lemma count_loop_settled (fuel : nat) (quota : Z) (ballots : list Ballot) :
  forall st st' : list Candidate * Z,
    count_loop fuel quota ballots st = Returns st' ->
    settled quota (fst st) \/ 0 < snd st ->
    settled quota (fst st') /\ snd st' <= 0.
Proof.
  induction fuel as [|fuel IH]; intros st st'; simpl.
  - destruct (Z.ltb_spec 0 (snd st)) as [Hlt|Hge]; [discriminate|].
    intros Heq [Hs|Hpos]; [|lia]. injection Heq as <-. auto.
  - destruct (Z.ltb_spec 0 (snd st)) as [Hlt|Hge].
    + destruct (round quota ballots st) as [st1|] eqn:Hr; [|discriminate].
      intros Hl _. apply (IH _ _ Hl). left.
      unfold round in Hr.
      destruct (count_ballots (fst st) ballots) as [counted|]; [|discriminate].
      injection Hr as <-. rewrite elect_fst. unfold settled.
      rewrite Forall_map. apply Forall_forall. intros c _. simpl.
      unfold reset_elected.
      destruct (Z.leb_spec quota (VoteCount c)); simpl; auto.
    + intros Heq [Hs|Hpos]; [|lia]. injection Heq as <-. auto.
Qed.

(** Whenever the counting of [CountVotes] returns on an election with a
    seat to fill, no seat remains and every count is 0 or below the
    quota. *)
Theorem CountVotes_result_is_settled
  (e : Election) (fuel : nat) (quota : Z) (cands : list Candidate) (sr : Z) :
  0 < Seats e ->
  quota_of (TotalVotes e) (Seats e) = Some quota ->
  tally fuel e = Returns (cands, sr) ->
  settled quota cands /\ sr <= 0.
Proof.
  intros Hs Hq Ht. unfold tally in Ht. rewrite Hq in Ht.
  apply (count_loop_settled _ _ _ _ _ Ht). right. exact Hs.
Qed.

Lemma CountVotes_result_is_settled_witness :
  settled 2 [mkCandidate "A" 0; mkCandidate "B" 1; mkCandidate "C" 1] /\ 0 <= 0.
Proof.
  apply (CountVotes_result_is_settled Inputs.scenario 1 2
           [mkCandidate "A" 0; mkCandidate "B" 1; mkCandidate "C" 1] 0).
  - simpl. lia.
  - reflexivity.
  - reflexivity.
Defined.

End StoredResultFacts.

(** ** stvVote.sol: whose ballot [countVotes] reads *)

Section STVVoteCountFacts.

Import Invariants.

Local Open Scope N_scope.

Lemma STVVote_quota_value (V seats : N) :
  V <= Uint.max -> 1 <= seats < Uint.max ->
  STVVote.quota_of V seats = Some (V / (seats + 1) + 1)
  /\ (1 <= V -> V / (seats + 1) + 1 <= V).
Proof.
  intros HV Hs. unfold STVVote.quota_of, Uint.add, Uint.div.
  destruct (N.leb_spec (seats + 1) Uint.max) as [_|]; [|lia].
  destruct (N.eqb_spec (seats + 1) 0) as [|_]; [lia|].
  assert (Hq : V / (seats + 1) <= V / 2) by (apply N.div_le_compat_l; lia).
  assert (Hh : 2 * (V / 2) <= V) by (apply N.Div0.mul_div_le).
  generalize dependent (V / (seats + 1)). intros q Hq.
  generalize dependent (V / 2). intros h Hq Hh.
  destruct (N.leb_spec (q + 1) Uint.max) as [_|]; [|unfold Uint.max in *; lia].
  split; [reflexivity|lia].
Qed.

Variable s : STVVote.storage.

(** Without the owner's own ballot the count reverts.  A caller other than
    the owner is refused; and if the owner has not voted (and no ballot is
    stored at the zero address), any vote cast and a seat to fill,
    [countVotes] reverts in its first counting pass, on the empty
    [preferences] it reads. *)
Theorem countVotes_needs_the_owners_ballot (sender : N) (fuel : nat) :
  (sender <> STVVote.owner s ->
   STVVote.countVotes fuel s sender = Reverted "Not authorized.")
  /\ (sender = STVVote.owner s ->
      STVVote.ballots s !! STVVote.owner s = None ->
      STVVote.ballots s !! 0 = None ->
      1 <= STVVote.totalVotes s <= Uint.max ->
      1 <= STVVote.seats s < Uint.max ->
      STVVote.countVotes (S fuel) s sender = Reverted "Panic").
Proof.
  unfold STVVote.countVotes. split.
  - intros Hne. destruct (N.eqb_spec sender (STVVote.owner s)); [contradiction|].
    reflexivity.
  - intros -> Hown Hzero Ht Hs. rewrite N.eqb_refl. simpl negb. cbv iota.
    destruct (STVVote_quota_value (STVVote.totalVotes s) (STVVote.seats s))
      as [Hq _]; [lia | lia |].
    rewrite Hq. cbn [STVVote.count_loop]. simpl snd. simpl fst.
    destruct (N.ltb_spec 0 (STVVote.seats s)); [|lia].
    destruct (N.to_nat (STVVote.totalVotes s)) as [|n] eqn:Hn; [lia|].
    cbn [STVVote.count_first]. unfold STVVote.count_one, STVVote.ballot_at.
    rewrite Hown. simpl. rewrite Hzero. reflexivity.
Qed.

Variables (b : STVVote.Ballot) (p : N) (rest : list N) (c : STVVote.Candidate).

Hypothesis Hballot : STVVote.ballots s !! STVVote.owner s = Some b.
Hypothesis Hvoter : STVVote.voter b = STVVote.owner s.
Hypothesis Hprefs : STVVote.preferences b = p :: rest.



Hypothesis Hcand : STVVote.candidates s !! N.to_nat p = Some c.
Hypothesis Hzero : Forall (fun x => STVVote.voteCount x = 0) (STVVote.candidates s).
Hypothesis Htotal : 1 <= STVVote.totalVotes s <= Uint.max.
Hypothesis Hseats : 1 <= STVVote.seats s < Uint.max.



End STVVoteCountFacts.

Lemma countVotes_needs_the_owners_ballot_witness :
  STVVote.countVotes 1 ContractInputs.owner_absent 8 = Reverted "Not authorized."
  /\ STVVote.countVotes 1 ContractInputs.owner_absent 7 = Reverted "Panic".
Proof.
  split.
  - apply (proj1 (countVotes_needs_the_owners_ballot
                    ContractInputs.owner_absent 8 1)).
    simpl. discriminate.
  - apply (proj2 (countVotes_needs_the_owners_ballot
                    ContractInputs.owner_absent 7 0));
      try reflexivity; unfold Uint.max; simpl; lia.
Defined.


(** ** The Solidity contracts: [totalVotes] counts the voters *)

Section VoteLedgerFacts.

Import Invariants.



(** STVContract.sol: the same for its [vote] under [hasNotVoted]. *)
Theorem STVContract_vote_keeps_ledger :
  (forall (sender : N) (names : list string) (quorum : N),
     STVContract_ledger (STVContract.constructor sender names quorum))
  /\ (forall (s s' : STVContract.storage) (sender : N) (prefs : list N),
        STVContract_ledger s -> STVContract.vote s sender prefs = Success s' ->
        STVContract_ledger s'
        /\ STVContract.voters s !! sender = None
        /\ STVContract.voters s' !! sender = Some (STVContract.mkVoter true prefs)
        /\ (forall a, a <> sender ->
              STVContract.voters s' !! a = STVContract.voters s !! a)
        /\ STVContract.candidates s' = STVContract.candidates s
        /\ STVContract.quorum s' = STVContract.quorum s
        /\ STVContract.owner s' = STVContract.owner s).
Proof.
  split.
  - intros sender names quorum. split.
    + intros a v Hav. simpl in Hav. rewrite lookup_empty in Hav. discriminate.
    + simpl. rewrite map_size_empty. reflexivity.
  - intros s s' sender prefs [Hmarks Hsize] Hvote. unfold STVContract.vote in Hvote.
    destruct (STVContract.voted (STVContract.voter_at s sender)) eqn:Hv;
      [discriminate|].
    destruct (negb _); [discriminate|].
    unfold Uint.add in Hvote.
    destruct (N.leb_spec (STVContract.totalVotes s + 1) Uint.max); [|discriminate].
    injection Hvote as <-. simpl.
    assert (Hnone : STVContract.voters s !! sender = None).
    { destruct (STVContract.voters s !! sender) as [v|] eqn:Hb; [|reflexivity].
      unfold STVContract.voter_at in Hv. rewrite Hb in Hv. simpl in Hv.
      rewrite (Hmarks _ _ Hb) in Hv. discriminate. }
    split; [split|].
    + intros a v Hav. simpl in Hav.
      destruct (decide (a = sender)) as [->|Hne].
      * rewrite lookup_insert_eq in Hav. injection Hav as <-. reflexivity.
      * rewrite lookup_insert_ne in Hav by congruence. exact (Hmarks _ _ Hav).
    + simpl. rewrite map_size_insert_None by exact Hnone. lia.
    + split; [exact Hnone|]. split; [apply lookup_insert_eq|].
      split; [|auto]. intros a Hne. apply lookup_insert_ne. congruence.
Qed.

Lemma STVContract_vote_keeps_ledger_witness :
  match STVContract.vote (STVContract.constructor 7 ["Alice"; "Bob"] 100) 8
                         [1%N; 0%N] with
  | Success s' => STVContract_ledger s' /\ STVContract.totalVotes s' = 1%N
  | _ => False
  end.
Proof.
  destruct (STVContract.vote (STVContract.constructor 7 ["Alice"; "Bob"] 100) 8
                             [1%N; 0%N]) as [s'| |] eqn:Hv;
    try discriminate Hv.
  split.
  - apply (proj2 STVContract_vote_keeps_ledger
             (STVContract.constructor 7 ["Alice"; "Bob"] 100) s' 8%N [1%N; 0%N]);
      [|exact Hv].
    apply (proj1 STVContract_vote_keeps_ledger).
  - injection Hv as <-. reflexivity.
Defined.

End VoteLedgerFacts.

(** ** tallying.go: what the totals depend on *)

Section TallyingOrderFacts.

Import Tallying.

Lemma weighted_total_perm (c : string) (pesos : list Z)
      (votos votos' : list (list string)) :
  Permutation votos votos' ->
  weighted_total c pesos votos = weighted_total c pesos votos'.
Proof.
  induction 1 as [|v l l' _ IH|v v' l|l l' l'' _ IH1 _ IH2]; simpl;
    [reflexivity | lia | lia | congruence].
Qed.

Lemma contains_same (validas validas' : list string) (c : string) :
  (forall x, In x validas <-> In x validas') ->
  contains validas c = contains validas' c.
Proof.
  intros Hsame.
  destruct (contains validas c) eqn:H1, (contains validas' c) eqn:H2;
    try reflexivity.
  - apply contains_true, Hsame, contains_true in H1. congruence.
  - apply contains_true, Hsame, contains_true in H2. congruence.
Qed.

(** The totals do not depend on the order in which the ballots are given,
    nor on the order or repetition of names in the roster: the map of
    totals is the same, and so is the set of lists [calcularTotais] may
    return. *)
Theorem totals_ignore_the_order
  (votos votos' : list (list string)) (validas validas' : list string)
  (pesos : list Z) :
  Permutation votos votos' ->
  (forall x, In x validas <-> In x validas') ->
  totais votos validas pesos = totais votos' validas' pesos
  /\ forall out, calcularTotais votos validas pesos out
                 <-> calcularTotais votos' validas' pesos out.
Proof.
  intros Hp Hsame.
  assert (Heq : totais votos validas pesos = totais votos' validas' pesos).
  { apply map_eq. intros c. rewrite !totais_lookup.
    rewrite (contains_same _ _ c Hsame), (weighted_total_perm c pesos _ _ Hp).
    reflexivity. }
  split; [exact Heq|]. intros out. unfold calcularTotais. rewrite Heq. tauto.
Qed.

Lemma totals_ignore_the_order_witness :
  totais [["A"; "B"]; ["B"; "A"]; ["A"]] ["A"; "B"] [3; 2]
  = totais [["A"]; ["A"; "B"]; ["B"; "A"]] ["B"; "A"; "B"] [3; 2].
Proof.
  apply (totals_ignore_the_order
           [["A"; "B"]; ["B"; "A"]; ["A"]] [["A"]; ["A"; "B"]; ["B"; "A"]]
           ["A"; "B"] ["B"; "A"; "B"] [3; 2]).
  - apply Permutation_sym. apply (Permutation_cons_append [["A"; "B"]; ["B"; "A"]] ["A"]).
  - intros x. simpl. tauto.
Defined.

(** The list [calcularTotais] returns names each roster candidate exactly
    once and nobody else: a name that is voted for but is not on the roster
    gets no entry, and a roster name without votes still gets one. *)
Theorem ranking_lists_the_roster
  (votos : list (list string)) (validas : list string) (pesos : list Z)
  (out : list Candidata) :
  calcularTotais votos validas pesos out ->
  NoDup (map Nome out)
  /\ (forall n, In n (map Nome out) <-> In n validas)
  /\ length out = size (totais votos validas pesos).
Proof.
  intros Hout.
  pose proof Hout as (lista & Hrange & Hperm & _). unfold ranged in Hrange.
  assert (Hp : Permutation (map to_candidata
                              (map_to_list (totais votos validas pesos))) out)
    by (etransitivity; eassumption).
  assert (Hnames : map Nome (map to_candidata
                               (map_to_list (totais votos validas pesos)))
                   = (map_to_list (totais votos validas pesos)).*1).
  { rewrite map_map. apply map_ext. intros [n v]. reflexivity. }
  split; [|split].
  - rewrite <- (Permutation_map Nome Hp), Hnames. apply NoDup_fst_map_to_list.
  - intros n. split.
    + intros Hin. apply in_map_iff in Hin as (cand & <- & Hcand).
      apply (calcularTotais_entries _ _ _ _ _ Hout) in Hcand.
      rewrite totais_lookup in Hcand.
      destruct (contains validas (Nome cand)) eqn:Hc; [|discriminate].
      apply contains_true, Hc.
    + intros Hin. apply contains_true in Hin.
      apply in_map_iff.
      exists (mkCandidata n (GoInt.wrap (weighted_total n pesos votos))).
      split; [reflexivity|].
      apply (calcularTotais_entries _ _ _ _ _ Hout). simpl.
      rewrite totais_lookup, Hin. reflexivity.
  - rewrite <- (Permutation_length Hp), length_map.
    apply length_map_to_list.
Qed.

Lemma ranking_lists_the_roster_witness :
  let out := calcularTotais_run [["A"; "Zed"]; ["Zed"; "B"]] ["A"; "B"; "C"] [3; 2] in
  NoDup (map Nome out) /\ ~ In "Zed" (map Nome out) /\ In "C" (map Nome out).
Proof.
  intros out.
  destruct (ranking_lists_the_roster [["A"; "Zed"]; ["Zed"; "B"]]
              ["A"; "B"; "C"] [3; 2] out) as (Hnd & Hin & _).
  - apply calcularTotais_run_returns.
  - split; [exact Hnd|]. split.
    + intros Hz. apply Hin in Hz.
      destruct Hz as [H|[H|[H|[]]]]; discriminate H.
    + apply Hin. simpl. auto.
Defined.

End TallyingOrderFacts.

(** ** What the counting reads of a ballot *)

Section FirstPreferenceFacts.

Import Chaincode.

Lemma count_ballots_reads_first (ballots : list Ballot) :
  forall (ballots' : list Ballot) (cands : list Candidate),
    map (fun b => head (Preferences b)) ballots
    = map (fun b => head (Preferences b)) ballots' ->
    count_ballots cands ballots = count_ballots cands ballots'.
Proof.
  induction ballots as [|b rest IH]; intros [|b' rest'] cands Hsame;
    try discriminate Hsame; [reflexivity|].
  simpl in Hsame. injection Hsame as Hhead Hrest. simpl.
  destruct (Preferences b) as [|p ps], (Preferences b') as [|p' ps'];
    try discriminate Hhead; [reflexivity|].
  injection Hhead as <-.
  destruct (incr_vote cands p); [apply IH; exact Hrest | reflexivity].
Qed.

(** [CountVotes] reads nothing of a ballot but [Preferences[0]]: two
    elections that differ only in the voters' names and in the preferences
    after the first give the same counting, round for round. *)
Theorem CountVotes_reads_first_preferences_only (e e' : Election) (fuel : nat) :
  Candidates e = Candidates e' -> Seats e = Seats e' ->
  TotalVotes e = TotalVotes e' ->
  map (fun b => head (Preferences b)) (Ballots e)
  = map (fun b => head (Preferences b)) (Ballots e') ->
  tally fuel e = tally fuel e'.
Proof.
  intros Hc Hs Ht Hb. unfold tally. rewrite Hc, Hs, Ht.
  destruct (quota_of (TotalVotes e') (Seats e')) as [q|]; [|reflexivity].
  generalize (Candidates e', Seats e'). induction fuel as [|fuel IH]; intros st.
  - reflexivity.
  - cbn [count_loop]. destruct (0 <? snd st); [|reflexivity].
    unfold round. rewrite (count_ballots_reads_first _ _ (fst st) Hb).
    destruct (count_ballots (fst st) (Ballots e')); [apply IH | reflexivity].
Qed.

Lemma CountVotes_reads_first_preferences_only_witness :
  tally 3 Inputs.scenario
  = tally 3 (mkElection (Candidates Inputs.scenario) 1 4
               [mkBallot "w1" [0] true; mkBallot "w2" [0; 0; 0] true;
                mkBallot "w3" [1; 2] true; mkBallot "w4" [2; 7] true]).
Proof.
  apply CountVotes_reads_first_preferences_only; reflexivity.
Defined.



End FirstPreferenceFacts.
